(** * Data-Vis: the airport network diagram (datavis-3/src/App.tsx)

  A shallow embedding of the module-level dataset pipeline, the force
  registry, the drag handlers and the layout-mode effect of [App.tsx],
  together with the statements the specification makes about them.

  Conventions.
  - The numbers of the dataset pipeline (counts, totals, coordinates)
    are IEEE doubles: Rocq's primitive [float], with its rounding, its
    signed zeros, infinities and NaN.
  - The numbers of the force simulation (positions, velocities, alpha,
    the scales' results) are modelled by the rationals their values
    denote ([Q]); rounding is outside the model there.  The literals
    [0.3], [0.7], [1], [24.2] ... are the rationals they spell.
  - [undefined]/[null] are [None]; a JS object used as a dictionary is
    the [gmap string _] of its own properties, read through the
    properties it inherits from [Object.prototype]; a JS [Map] whose
    iteration order is observable is an insertion-ordered association
    list.
  - The node objects that d3 mutates in place live in one store
    ([list Particle]); whoever holds a reference to a node (a resolved
    link, a drag event's subject) holds its index in that store. *)

From Stdlib Require Import QArith Lqa.
From Stdlib Require Import PrimFloat FloatOps SpecFloat FloatAxioms.
From stdpp Require Import gmap strings list fin_maps.

Local Close Scope Q_scope.
Local Open Scope string_scope.

(** ** JavaScript values and truthiness *)

Module Js.

(** The values a callback handed to [Array.prototype.filter] returns in
    this program: a boolean, or (line 16) a function object. *)
Inductive Value (A : Type) : Type :=
| VBool (b : bool)
| VFunction (f : A -> bool).
Arguments VBool {A} b.
Arguments VFunction {A} f.

(** ToBoolean: every object, hence every function, is truthy. *)
Definition truthy {A} (v : Value A) : bool :=
  match v with
  | VBool b => b
  | VFunction _ => true
  end.

(** [xs.filter(p)] keeps the elements on which [p] returns a truthy value. *)
Definition filter {A B} (p : A -> Value B) (xs : list A) : list A :=
  List.filter (fun a => truthy (p a)) xs.

(** The values a property of the totals object can hold or inherit:
    [undefined], a number, an object or function inherited from
    [Object.prototype], or the string that [+=] makes of such an object
    and a number (the object's source text followed by the number's
    digits: never empty, never the spelling of a number). *)
Inductive Dyn : Type :=
| Undefined
| Num (n : float)
| Inherited
| Text.

(** The property names every object literal inherits from
    [Object.prototype]. *)
Definition Object_prototype : list string :=
  ["constructor"; "hasOwnProperty"; "isPrototypeOf"; "propertyIsEnumerable";
   "toLocaleString"; "toString"; "valueOf"; "__proto__";
   "__defineGetter__"; "__defineSetter__"; "__lookupGetter__";
   "__lookupSetter__"].

Definition inherited (k : string) : bool :=
  existsb (String.eqb k) Object_prototype.

(** [o[k]]: an own property, else an inherited one, else [undefined]. *)
Definition get (o : gmap string Dyn) (k : string) : Dyn :=
  match o !! k with
  | Some v => v
  | None => if inherited k then Inherited else Undefined
  end.

(** [o[k] = v] for a primitive [v]: an own property is created or
    overwritten, except under [__proto__], whose setter ignores
    primitives. *)
Definition set (k : string) (v : Dyn) (o : gmap string Dyn) : gmap string Dyn :=
  if k =? "__proto__" then o else <[k := v]> o.

(** [v + c] for a number [c]: numbers add as doubles, [undefined] gives
    NaN, anything else is turned into a string to which [c] is
    appended. *)
Definition plus (v : Dyn) (c : float) : Dyn :=
  match v with
  | Num n => Num (n + c)%float
  | Undefined => Num nan
  | Inherited | Text => Text
  end.

(** ToBoolean on these values: [undefined], [0], [-0] and NaN are falsy. *)
Definition truthy_dyn (v : Dyn) : bool :=
  match v with
  | Undefined => false
  | Num n => negb ((n =? 0)%float || is_nan n)
  | Inherited | Text => true
  end.

(** [v || 0] *)
Definition or_zero (v : Dyn) : Dyn :=
  if truthy_dyn v then v else Num 0%float.

(** [v > 0]: a number compares as a double; everything else converts to
    NaN, and no comparison with NaN holds. *)
Definition gt_zero (v : Dyn) : bool :=
  match v with
  | Num n => (0 <? n)%float
  | Undefined | Inherited | Text => false
  end.

(** The rational a finite double denotes (0 for an infinity or NaN,
    which denote none). *)
Definition rational (f : float) : Q :=
  match Prim2SF f with
  | S754_finite s m e =>
      ((if s then -1 else 1) * inject_Z (Z.pos m) * Qpower 2 e)%Q
  | _ => 0%Q
  end.

(** [[...new Set(xs)]]: the distinct elements in order of first
    occurrence. *)
Fixpoint set_spread (seen xs : list string) : list string :=
  match xs with
  | [] => []
  | s :: rest =>
      if existsb (String.eqb s) seen then set_spread seen rest
      else s :: set_spread (s :: seen) rest
  end.

(** [m[k] ??= 0]: assigns only when the read is nullish. *)
Definition nullish_assign_zero (k : string) (m : gmap string Dyn)
  : gmap string Dyn :=
  match get m k with
  | Undefined => set k (Num 0%float) m
  | _ => m
  end.

(** [m[k] += c] *)
Definition add_assign (k : string) (c : float) (m : gmap string Dyn)
  : gmap string Dyn :=
  set k (plus (get m k) c) m.

End Js.

(** ** The datasets (lines 6-56) *)

(** A row of [airports.csv] as the dsv plugin delivers it: every column a
  string. *)
Record RawAirport := {
  raw_iata : string;
  raw_name : string;
  raw_city : string;
  raw_state : string;
  raw_country : string;
  raw_latitude : string;
  raw_longitude : string
}.

(** A row of [flights-airport-5000plus.csv]. *)
Record RawFlight := {
  raw_origin : string;
  raw_destination : string;
  raw_count : string
}.

(** [interface Airport] *)
Record Airport := {
  iata : string;
  name : string;
  city : string;
  state : string;
  country : string;
  latitude : float;
  longitude : float
}.

(** [interface AirportWithTotalFlights extends Airport]; its field
  [flights] is [total] here, the name [flights] being taken by the
  module-level constant.  The interface declares it a number; what line
  32 stores is whatever [flightMap[a.iata] || 0] evaluates to. *)
Record AirportWithTotalFlights := {
  airport : Airport;
  total : Js.Dyn
}.

(** [interface Flight] *)
Record Flight := {
  origin : string;
  destination : string;
  count : float
}.

(** An element of [links] before d3 resolves it (lines 64-68). *)
Record Link := {
  source : string;
  target : string;
  link_count : float
}.

Section Dataset.

(** The two imported CSV tables and JavaScript's [Number] on the strings
    they hold. *)
Variable _airports : list RawAirport.
Variable _flights : list RawFlight.
Variable Number : string -> float.

(** Lines 9-12. *)
Definition flights : list Flight :=
  map (fun f => {| origin := raw_origin f;
                   destination := raw_destination f;
                   count := Number (raw_count f) |}) _flights.

(** The callback of line 16: it takes an airport and returns a second
    arrow function (whose parameter shadows the first); the inner
    function is what would look the airport up among the flights. *)
Definition has_flights_callback (_ : RawAirport) : Js.Value RawAirport :=
  Js.VFunction (fun a =>
    existsb (fun f => (origin f =? raw_iata a) || (destination f =? raw_iata a))
            flights).

Definition to_airport (a : RawAirport) : Airport :=
  {| iata := raw_iata a;
     name := raw_name a;
     city := raw_city a;
     state := raw_state a;
     country := raw_country a;
     latitude := Number (raw_latitude a);
     longitude := Number (raw_longitude a) |}.

(** Lines 14-22. *)
Definition airports : list Airport :=
  map to_airport (Js.filter has_flights_callback _airports).

(** The body of the loop of lines 25-30. *)
Definition flightMap_step (m : gmap string Js.Dyn) (flight : Flight)
  : gmap string Js.Dyn :=
  let m1 := Js.nullish_assign_zero (origin flight) m in
  let m2 := Js.add_assign (origin flight) (count flight) m1 in
  let m3 := Js.nullish_assign_zero (destination flight) m2 in
  Js.add_assign (destination flight) (count flight) m3.

(** Lines 24-30. *)
Definition flightMap : gmap string Js.Dyn :=
  fold_left flightMap_step flights ∅.

Definition with_total (a : Airport) : AirportWithTotalFlights :=
  {| airport := a; total := Js.or_zero (Js.get flightMap (iata a)) |}.

(** Lines 31-33. *)
Definition airportsWithTotal : list AirportWithTotalFlights :=
  List.filter (fun a => Js.gt_zero (total a)) (map with_total airports).

(** Line 36. *)
Definition states : list string :=
  Js.set_spread [] (map state airports).

(** Lines 64-68; [Number] of a number is that number. *)
Definition links : list Link :=
  map (fun flight => {| source := origin flight;
                        target := destination flight;
                        link_count := count flight |}) flights.

End Dataset.

(** ** The force simulation (lines 58-59, 86-100, 160-168) *)

(** A node object once [d3.forceSimulation] has taken it over: the datum
    of line 162 together with the physical state d3 keeps on the same
    object.  [fx]/[fy] are the pin; [None] is [null] or [undefined]. *)
Record Particle := {
  datum : AirportWithTotalFlights;
  x : Q;
  y : Q;
  vx : Q;
  vy : Q;
  fx : option Q;
  fy : option Q
}.

(** A link after the link force has replaced the identifiers in [source]
    and [target] by references to node objects (indices into the store). *)
Record ResolvedLink := {
  source_node : nat;
  target_node : nat;
  resolved_count : float
}.

(** The five force objects of lines 91-100. *)
Inductive Force := forceNode | forceLink | forceCenter | forceX | forceY.

(** The error the link force raises on an identifier that names no node. *)
Inductive MissingNodeError := MissingNode (nodeId : string).

(** The state behind the [simulation] object: the node store, the force
    registry (a JS [Map], in insertion order), the cooling scalars that
    this program reads or writes, whether the frame timer is running, and
    the link force's resolved links. *)
Record Simulation := {
  nodes : list Particle;
  forces : list (string * Force);
  alpha : Q;
  alphaTarget : Q;
  running : bool;
  resolved : list ResolvedLink
}.

(** What the program takes from the d3 library and this development
    leaves open: the scale constructor (for a domain and a range, the
    canvas coordinate of a double of the dataset, as the rational the
    simulation is modelled over), the initial placement of nodes,
    the simulation's default constants, the strength of the positional
    forces, and the three forces of the network layout, each a
    transformer of the node store at a given alpha (after its own
    parameters: strength; links and distance; centre). *)
Class D3 := {
  scaleLinear : Q * Q -> Q * Q -> float -> Q;
  initial_position : nat -> Q * Q;
  alphaMin : Q;
  alphaDecay : Q;
  velocityDecay : Q;
  positional_strength : Q;
  manyBody : Q -> Q -> list Particle -> list Particle;
  spring : list ResolvedLink -> Q -> Q -> list Particle -> list Particle;
  centering : Q -> Q -> Q -> list Particle -> list Particle
}.

(** The pin of a particle, as a pair. *)
Definition pin (p : Particle) : option Q * option Q := (fx p, fy p).

(** What the statements below assume of the library: the decay rate is a
    proportion, the threshold under which the timer stops is below the
    smallest alpha target the program ever sets, and the library's forces
    leave the pins (and the number of nodes) alone. *)
Class D3Laws (d3 : D3) : Prop := {
  alphaDecay_range : (0 <= alphaDecay <= 1)%Q;
  alphaMin_small : (alphaMin <= 0.3)%Q;
  manyBody_pins : forall k a ps, map pin (manyBody k a ps) = map pin ps;
  spring_pins : forall ls d a ps, map pin (spring ls d a ps) = map pin ps;
  centering_pins : forall cx cy a ps, map pin (centering cx cy a ps) = map pin ps
}.

(** What the statement on the positional anchors assumes besides: the
    positional forces' strength and the velocity decay are proper
    fractions (d3's defaults are 0.1 and 0.6). *)
Class PositionalLaws (d3 : D3) : Prop := {
  strength_range : (0 < positional_strength <= 1)%Q;
  velocityDecay_range : (0 < velocityDecay < 1)%Q
}.

(** A small result monad for the construction-time failure. *)
Definition Result (A : Type) : Type := MissingNodeError + A.

Definition ret {A} (a : A) : Result A := inr a.

Definition bind {A B} (r : Result A) (k : A -> Result B) : Result B :=
  match r with
  | inl e => inl e
  | inr a => k a
  end.

Notation "'try' x <- r ; k" := (bind r (fun x => k))
  (at level 10, x name, r at level 100, k at level 200).

(** Record updates, one per field the program assigns. *)
Definition set_pin (px py : option Q) (p : Particle) : Particle :=
  {| datum := datum p; x := x p; y := y p; vx := vx p; vy := vy p;
     fx := px; fy := py |}.

Definition set_vx (v : Q) (p : Particle) : Particle :=
  {| datum := datum p; x := x p; y := y p; vx := v; vy := vy p;
     fx := fx p; fy := fy p |}.

Definition set_vy (v : Q) (p : Particle) : Particle :=
  {| datum := datum p; x := x p; y := y p; vx := vx p; vy := v;
     fx := fx p; fy := fy p |}.

Definition set_nodes (ns : list Particle) (s : Simulation) : Simulation :=
  {| nodes := ns; forces := forces s; alpha := alpha s;
     alphaTarget := alphaTarget s; running := running s;
     resolved := resolved s |}.

Definition set_forces (fs : list (string * Force)) (s : Simulation) : Simulation :=
  {| nodes := nodes s; forces := fs; alpha := alpha s;
     alphaTarget := alphaTarget s; running := running s;
     resolved := resolved s |}.

Definition set_alpha (a : Q) (s : Simulation) : Simulation :=
  {| nodes := nodes s; forces := forces s; alpha := a;
     alphaTarget := alphaTarget s; running := running s;
     resolved := resolved s |}.

Definition set_running (b : bool) (s : Simulation) : Simulation :=
  {| nodes := nodes s; forces := forces s; alpha := alpha s;
     alphaTarget := alphaTarget s; running := b;
     resolved := resolved s |}.

Definition set_resolved (ls : list ResolvedLink) (s : Simulation) : Simulation :=
  {| nodes := nodes s; forces := forces s; alpha := alpha s;
     alphaTarget := alphaTarget s; running := running s;
     resolved := ls |}.

(** *** The simulation object's methods used by the program *)

Module simulation_api.

(** [Map.prototype.set]: an existing key keeps its place. *)
Fixpoint map_set (k : string) (v : Force) (m : list (string * Force))
  : list (string * Force) :=
  match m with
  | [] => [(k, v)]
  | (k', v') :: rest =>
      if k' =? k then (k', v) :: rest else (k', v') :: map_set k v rest
  end.

(** [Map.prototype.delete] *)
Definition map_delete (k : string) (m : list (string * Force))
  : list (string * Force) :=
  List.filter (fun kv => negb (fst kv =? k)) m.

(** [Map.prototype.get] *)
Fixpoint map_get (k : string) (m : list (string * Force)) : option Force :=
  match m with
  | [] => None
  | (k', v') :: rest => if k' =? k then Some v' else map_get k rest
  end.

(** Modelled from the spec: [simulation.force(name, f)] is d3's, not under
    src/; section 9 describes it: forces are attached and detached by
    string key at runtime.  [None] is the [null] that detaches. *)
Definition force (name : string) (f : option Force) (s : Simulation) : Simulation :=
  match f with
  | Some f => set_forces (map_set name f (forces s)) s
  | None => set_forces (map_delete name (forces s)) s
  end.

(** [simulation.alphaTarget(v)] *)
Definition set_alphaTarget (v : Q) (s : Simulation) : Simulation :=
  {| nodes := nodes s; forces := forces s; alpha := alpha s;
     alphaTarget := v; running := running s; resolved := resolved s |}.

(** [simulation.restart()]: the frame timer runs again. *)
Definition restart (s : Simulation) : Simulation := set_running true s.

End simulation_api.

Import simulation_api.

(** The registry of the network layout (lines 163-165) and of the map
    layout (lines 178-179). *)
Definition network_forces : list (string * Force) :=
  [("link", forceLink); ("charge", forceNode); ("center", forceCenter)].
Definition map_forces : list (string * Force) :=
  [("x", forceX); ("y", forceY)].

Definition registry_of (toggleMap : bool) : list (string * Force) :=
  if toggleMap then map_forces else network_forces.

Section Program.

Context {d3 : D3}.

Variable _airports : list RawAirport.
Variable _flights : list RawFlight.
Variable Number : string -> float.

(** Lines 58-59. *)
Definition width : Q := 1280.
Definition height : Q := 720.

(** Lines 86-88. *)
Definition scaleLatitude : float -> Q :=
  scaleLinear (24.2, 49.8)%Q (height, 0%Q).
Definition scaleLongitude : float -> Q :=
  scaleLinear (-66.5, -125.5)%Q (width, 0%Q).

(** The accessors handed to [d3.forceX] and [d3.forceY] (lines 99-100) and
    to [forceLink.id] (line 94); [d] is a node object. *)
Definition forceX_target (d : Particle) : Q :=
  scaleLongitude (longitude (airport (datum d))).
Definition forceY_target (d : Particle) : Q :=
  scaleLatitude (latitude (airport (datum d))).
Definition link_id (d : Particle) : string := iata (airport (datum d)).

(** Modelled from the spec: the positional force is d3's, not under src/;
    section 4.3: for each particle, a velocity delta that is a fraction of
    the distance to its anchor coordinate; the fraction is the force's
    strength scaled by alpha. *)
Definition positional_x (a : Q) (p : Particle) : Particle :=
  set_vx (vx p + (forceX_target p - x p) * positional_strength * a)%Q p.
Definition positional_y (a : Q) (p : Particle) : Particle :=
  set_vy (vy p + (forceY_target p - y p) * positional_strength * a)%Q p.

(** What each force object does to the store at alpha [a]; the
    parameters are those of lines 91-96. *)
Definition apply_force (links' : list ResolvedLink) (f : Force) (a : Q)
  (ps : list Particle) : list Particle :=
  match f with
  | forceNode => manyBody (-50)%Q a ps
  | forceLink => spring links' 50%Q a ps
  | forceCenter => centering (width / 2)%Q (height / 2)%Q a ps
  | forceX => map (positional_x a) ps
  | forceY => map (positional_y a) ps
  end.

(** Modelled from the spec: the integration step is d3's, not under src/;
    section 4.4: a non-pinned coordinate has its velocity multiplied by
    the velocity decay and then added to the position; a pinned one is
    forced to the pin and its velocity zeroed. *)
Definition integrate (p : Particle) : Particle :=
  let '(x', vx') :=
    match fx p with
    | None => let v := (vx p * velocityDecay)%Q in ((x p + v)%Q, v)
    | Some f => (f, 0%Q)
    end in
  let '(y', vy') :=
    match fy p with
    | None => let v := (vy p * velocityDecay)%Q in ((y p + v)%Q, v)
    | Some f => (f, 0%Q)
    end in
  {| datum := datum p; x := x'; y := y'; vx := vx'; vy := vy';
     fx := fx p; fy := fy p |}.

(** Modelled from the spec: [simulation.tick] is d3's, not under src/;
    section 4.4: alpha moves toward its target by the decay rate, the
    active forces run in registry order, then every particle is
    integrated. *)
Definition cooled (s : Simulation) : Q :=
  (alpha s + (alphaTarget s - alpha s) * alphaDecay)%Q.

Definition accumulate (s : Simulation) (a : Q) : list Particle :=
  fold_left (fun ps kf => apply_force (resolved s) (snd kf) a ps)
            (forces s) (nodes s).

Definition tick (s : Simulation) : Simulation :=
  let a := cooled s in
  set_nodes (map integrate (accumulate s a)) (set_alpha a s).

Definition Qltb (a b : Q) : bool := negb (Qle_bool b a).

(** Modelled from the spec: the timer callback is d3's, not under src/;
    section 4.4: one tick per frame, and below the negligible-motion
    threshold the loop idles. *)
Definition step (s : Simulation) : Simulation :=
  let s' := tick s in
  if Qltb (alpha s') alphaMin then set_running false s' else s'.

Fixpoint ticks (n : nat) (s : Simulation) : Simulation :=
  match n with
  | O => s
  | S n' => ticks n' (tick s)
  end.

(** *** Construction (lines 92-95 and 160-168) *)

(** Modelled from the spec: node initialisation is d3's, not under src/;
    section 4.1: each node gets a deterministic initial position and zero
    velocity; no pin is set. *)
Definition initializeNodes (ds : list AirportWithTotalFlights) : list Particle :=
  imap (fun i d =>
          {| datum := d;
             x := fst (initial_position i); y := snd (initial_position i);
             vx := 0%Q; vy := 0%Q; fx := None; fy := None |}) ds.

(** Modelled from the spec: [d3.forceSimulation] is d3's, not under src/;
    sections 3 and 4.4: the simulation owns the particle store, the
    active forces and the alpha state, and runs from its creation.  The
    starting values are d3's defaults: alpha 1, the top of its range, and
    alpha target 0, the resting value; no force is registered yet. *)
Definition forceSimulation (ds : list AirportWithTotalFlights) : Simulation :=
  {| nodes := initializeNodes ds; forces := []; alpha := 1%Q;
     alphaTarget := 0%Q; running := true; resolved := [] |}.

(** The table from identifier to node that link resolution consults,
    built with the accessor of line 94; like a JS [Map] built from
    entries, a repeated identifier keeps its last node. *)
Definition nodeById (ns : list Particle) : gmap string nat :=
  fold_left (fun m ip => <[link_id (snd ip) := fst ip]> m) (imap pair ns) ∅.

(** Modelled from the spec: link resolution is d3's, not under src/;
    sections 3, 4.1 and 7: each edge's identifiers are resolved once into
    references to nodes, and an identifier that names no node is a fatal
    [MissingNodeError]. *)
Definition find (m : gmap string nat) (nodeId : string) : Result nat :=
  match m !! nodeId with
  | Some i => ret i
  | None => inl (MissingNode nodeId)
  end.

(** Modelled from the spec: the loop over the links, same sections; the
    ends of each link are looked up in order, source first, and the first
    failure ends the construction. *)
Fixpoint resolve_links (m : gmap string nat) (ls : list Link)
  : Result (list ResolvedLink) :=
  match ls with
  | [] => ret []
  | l :: rest =>
      try s <- find m (source l);
      try t <- find m (target l);
      try rest' <- resolve_links m rest;
      ret ({| source_node := s; target_node := t;
              resolved_count := link_count l |} :: rest')
  end.

Definition forceLink_initialize (ns : list Particle) (ls : list Link)
  : Result (list ResolvedLink) :=
  resolve_links (nodeById ns) ls.

(** Lines 161-168.  Registering the link force is what initialises it
    against the simulation's nodes, and so what can fail. *)
Definition simulation : Result Simulation :=
  let s := forceSimulation (airportsWithTotal _airports _flights Number) in
  try ls <- forceLink_initialize (nodes s) (links _flights Number);
  ret (force "y" None
      (force "x" None
      (force "center" (Some forceCenter)
      (force "charge" (Some forceNode)
      (force "link" (Some forceLink) (set_resolved ls s)))))).

(** *** Drag handlers (lines 102-118) *)

(** What the handlers read of a d3 drag event: the number of other
    active gestures, the subject (a node, by index) and the pointer.
    d3 hands the handlers a node of the store; an index outside the store
    would update nothing. *)
Record DragEvent := {
  active : nat;
  subject : nat;
  event_x : Q;
  event_y : Q
}.

Definition update_subject (event : DragEvent) (f : Particle -> Particle)
  (s : Simulation) : Simulation :=
  set_nodes (alter f (subject event) (nodes s)) s.

(** Lines 103-107. *)
Definition dragstarted (event : DragEvent) (s : Simulation) : Simulation :=
  let s1 := if Nat.eqb (active event) 0
            then restart (set_alphaTarget 0.3%Q s) else s in
  update_subject event (fun p => set_pin (Some (x p)) (Some (y p)) p) s1.

(** Lines 109-112. *)
Definition dragged (event : DragEvent) (s : Simulation) : Simulation :=
  update_subject event (set_pin (Some (event_x event)) (Some (event_y event))) s.

(** Lines 114-118. *)
Definition dragended (event : DragEvent) (s : Simulation) : Simulation :=
  let s1 := if Nat.eqb (active event) 0
            then set_alphaTarget 0.7%Q s else s in
  update_subject event (set_pin None None) s1.

(** *** The component (lines 170-195) *)

(** The callback of [createEffect] (lines 173-181), as a function of the
    value of the [toggleMap] signal it reads. *)
Definition mode_effect (toggleMap : bool) (s : Simulation) : Simulation :=
  let s1 := force "link" (if toggleMap then None else Some forceLink) s in
  let s2 := force "charge" (if toggleMap then None else Some forceNode) s1 in
  let s3 := force "center" (if toggleMap then None else Some forceCenter) s2 in
  let s4 := force "x" (if toggleMap then Some forceX else None) s3 in
  let s5 := force "y" (if toggleMap then Some forceY else None) s4 in
  restart (set_alphaTarget 1%Q s5).

(** The signal and the simulation it drives. *)
Record AppState := {
  toggleMap : bool;
  sim : Simulation
}.

(** Creating the component: the signal starts [false] and the effect
    runs once. *)
Definition App (s : Simulation) : AppState :=
  {| toggleMap := false; sim := mode_effect false s |}.

(** What can happen to a mounted component: a click on the button, the
    three phases of a drag gesture, and a timer frame. *)
Inductive Event :=
| Click
| DragStart (event : DragEvent)
| DragMove (event : DragEvent)
| DragEnd (event : DragEvent)
| Frame.

Definition handle (a : AppState) (ev : Event) : AppState :=
  match ev with
  | Click =>
      let t := negb (toggleMap a) in
      {| toggleMap := t; sim := mode_effect t (sim a) |}
  | DragStart e => {| toggleMap := toggleMap a; sim := dragstarted e (sim a) |}
  | DragMove e => {| toggleMap := toggleMap a; sim := dragged e (sim a) |}
  | DragEnd e => {| toggleMap := toggleMap a; sim := dragended e (sim a) |}
  | Frame =>
      if running (sim a)
      then {| toggleMap := toggleMap a; sim := step (sim a) |}
      else a
  end.

Definition run (a : AppState) (evs : list Event) : AppState :=
  fold_left handle evs a.

End Program.

(** *** Invariants of the mounted component *)

(** The registry always is that of the mode the signal shows, and the
    alpha target never exceeds 1. *)
Definition registry_inv (a : AppState) : Prop :=
  forces (sim a) = registry_of (toggleMap a)
  /\ (alphaTarget (sim a) <= 1)%Q.

(** The alpha target is one of the three values the program assigns,
    alpha has not fallen under the least of them, and the timer runs. *)
Definition cooling_inv (s : Simulation) : Prop :=
  (alphaTarget s = 1%Q \/ alphaTarget s = 0.3%Q \/ alphaTarget s = 0.7%Q)
  /\ (0.3 <= alpha s)%Q
  /\ running s = true.

(** Neither alpha nor its target exceeds 1. *)
Definition heat_inv (s : Simulation) : Prop :=
  (alpha s <= 1)%Q /\ (alphaTarget s <= 1)%Q.

(** The identifiers of the nodes handed to the simulation. *)
Definition simulated_ids (_airports : list RawAirport)
  (_flights : list RawFlight) (Number : string -> float) : list string :=
  map (fun n => iata (airport n)) (airportsWithTotal _airports _flights Number).

(** ** The specification's aggregate flow *)

Definition Qsum (qs : list Q) : Q := fold_right Qplus 0%Q qs.


(** [acc + c] in doubles when [hit], else [acc]. *)
Definition credit (acc : float) (hit : bool) (c : float) : float :=
  if hit then (acc + c)%float else acc.

(** The total of airport [k] as doubles add it up: from 0, going through
    the flights in table order, each flight's count is added once if [k]
    is its origin and then once if [k] is its destination. *)
Definition double_flow (fs : list Flight) (k : string) : float :=
  fold_left (fun acc f =>
               credit (credit acc (origin f =? k) (count f))
                      (destination f =? k) (count f))
            fs 0%float.

(** The totals object agrees with a running double for key [k]: either
    the key still reads [undefined] and nothing has been added, or it
    holds the running double. *)
Definition tracks (m : gmap string Js.Dyn) (k : string) (acc : float) : Prop :=
  (Js.get m k = Js.Undefined /\ acc = 0%float) \/ Js.get m k = Js.Num acc.

(** The key reads something that is neither nullish nor a number. *)
Definition clobbered (m : gmap string Js.Dyn) (k : string) : Prop :=
  Js.get m k = Js.Inherited \/ Js.get m k = Js.Text.

(** ** Fixtures: a small dataset and an instance of the library interface

    The dataset is the two-airport scenario of the specification's
    section 8 with one more airport that no flight mentions; beside it,
    a flights table with a dangling end, a dataset with an airport named
    like an inherited property, and a flights table whose counts absorb
    one another in doubles.  The instance gives the interface concrete
    values on which the statements can be evaluated; its forces are
    stand-ins chosen to be computable over the rationals, not d3's. *)

Module Fixture.

Definition JFK : RawAirport :=
  {| raw_iata := "JFK"; raw_name := "John F Kennedy Intl";
     raw_city := "New York"; raw_state := "NY"; raw_country := "USA";
     raw_latitude := "40.6"; raw_longitude := "-73.8" |}.

Definition LAX : RawAirport :=
  {| raw_iata := "LAX"; raw_name := "Los Angeles International";
     raw_city := "Los Angeles"; raw_state := "CA"; raw_country := "USA";
     raw_latitude := "33.9"; raw_longitude := "-118.4" |}.

Definition ANC : RawAirport :=
  {| raw_iata := "ANC"; raw_name := "Ted Stevens Anchorage International";
     raw_city := "Anchorage"; raw_state := "AK"; raw_country := "USA";
     raw_latitude := "61.2"; raw_longitude := "-150.0" |}.

Definition airports_csv : list RawAirport := [JFK; LAX; ANC].

Definition flights_csv : list RawFlight :=
  [{| raw_origin := "JFK"; raw_destination := "LAX"; raw_count := "50" |}].

(** A flight to an airport the airports table does not have. *)
Definition dangling_csv : list RawFlight :=
  [{| raw_origin := "JFK"; raw_destination := "LAX"; raw_count := "50" |};
   {| raw_origin := "JFK"; raw_destination := "XXX"; raw_count := "7" |}].

(** An airports table with a row whose identifier is a property name
    that object literals inherit, and a flight from it. *)
Definition CTR : RawAirport :=
  {| raw_iata := "constructor"; raw_name := "Constructor Field";
     raw_city := "Anytown"; raw_state := "NY"; raw_country := "USA";
     raw_latitude := "40.6"; raw_longitude := "-73.8" |}.

Definition inheriting_airports_csv : list RawAirport := [CTR; LAX].

Definition inheriting_flights_csv : list RawFlight :=
  [{| raw_origin := "constructor"; raw_destination := "LAX";
      raw_count := "50" |}].


(** [Number] on the strings that occur in the fixture (NaN elsewhere;
    the decimal fractions round to the nearest double, as in JS). *)
#[warnings="-inexact-float"] Definition Number (s : string) : float :=
  if s =? "50" then 50%float
  else if s =? "7" then 7%float
  else if s =? "1" then 1%float
  else if s =? "1e16" then 1e16%float
  else if s =? "-1e16" then (-1e16)%float
  else if s =? "40.6" then 40.6%float
  else if s =? "-73.8" then (-73.8)%float
  else if s =? "33.9" then 33.9%float
  else if s =? "-118.4" then (-118.4)%float
  else if s =? "61.2" then 61.2%float
  else if s =? "-150.0" then (-150)%float
  else nan.

(** The linear map that takes the ends of the domain to the ends of the
    range, at the rational the double denotes. *)
Definition linear (domain range : Q * Q) (v : float) : Q :=
  (fst range
   + (Js.rational v - fst domain) / (snd domain - fst domain)
     * (snd range - fst range))%Q.

(** A stand-in for the link force: every link pulls the horizontal
    velocity of each of its ends toward the other end. *)
Definition pull (ls : list ResolvedLink) (ps : list Particle) (i : nat)
  (p : Particle) : Q :=
  Qsum (map (fun l =>
               let other :=
                 if Nat.eqb (source_node l) i then ps !! target_node l
                 else if Nat.eqb (target_node l) i then ps !! source_node l
                 else None in
               match other with
               | Some q => (x q - x p)%Q
               | None => 0%Q
               end) ls).

Definition toy_spring (ls : list ResolvedLink) (distance a : Q)
  (ps : list Particle) : list Particle :=
  imap (fun i p => set_vx (vx p + pull ls ps i p * a / 10)%Q p) ps.

#[export] Instance toy_d3 : D3 := {|
  scaleLinear := linear;
  initial_position := fun i => (inject_Z (Z.of_nat i * 100), 0%Q);
  alphaMin := 0.001%Q;
  alphaDecay := 0.02%Q;
  velocityDecay := 0.6%Q;
  positional_strength := 0.1%Q;
  manyBody := fun _ _ ps => ps;
  spring := toy_spring;
  centering := fun _ _ _ ps => ps
|}.

(** A drag of node 0 (JFK) to pixel (100,100), no other gesture active. *)
Definition drag_JFK : DragEvent :=
  {| active := 0; subject := 0; event_x := 100%Q; event_y := 100%Q |}.

(** The fixture's simulation, when its construction succeeds. *)
Definition built : option Simulation :=
  match simulation airports_csv flights_csv Number with
  | inr s => Some s
  | inl _ => None
  end.

Definition s0 : Simulation := default (forceSimulation []) built.

(** JFK's node object as construction leaves it. *)
Definition JFK_node : Particle :=
  {| datum := {| airport := to_airport Number JFK;
                 total := Js.Num 50%float |};
     x := 0%Q; y := 0%Q; vx := 0%Q; vy := 0%Q; fx := None; fy := None |}.

End Fixture.

(** ** Rendering (lines 80-84 and 150-158) *)

(** The argument of [d3.interpolateBuGn] for the state at index [i] of
    [n] states (line 84: [i / s.length]). *)
Definition ramp (i n : nat) : Q :=
  (inject_Z (Z.of_nat i) / inject_Z (Z.of_nat n))%Q.

(** The range handed to [scaleState] (line 84), for any colour
    interpolator. *)
Definition scaleState_range {Color : Type} (interpolateBuGn : Q -> Color)
  (states : list string) : list Color :=
  imap (fun i _ => interpolateBuGn (ramp i (length states))) states.

(** The four attributes [ticked] sets on a line. *)
Record Line := {
  x1 : Q;
  y1 : Q;
  x2 : Q;
  y2 : Q
}.

(** What [ticked] (lines 151-158) writes: for every link the positions of
    the node objects its [source] and [target] refer to, and for every
    node its own position.  A reference that led to no node would yield
    no numbers ([None]). *)
Definition ticked (s : Simulation) : list (option Line) * list (Q * Q) :=
  (map (fun d =>
          match nodes s !! source_node d, nodes s !! target_node d with
          | Some p, Some q =>
              Some {| x1 := x p; y1 := y p; x2 := x q; y2 := y q |}
          | _, _ => None
          end) (resolved s),
   map (fun d => (x d, y d)) (nodes s)).

(** *** Classifying events *)

(** The subject of a drag event, if the event is one. *)
Definition drag_subject (ev : Event) : option nat :=
  match ev with
  | DragStart e | DragMove e | DragEnd e => Some (subject e)
  | Click | Frame => None
  end.

(** The event is not a drag event on node [i]. *)
Definition spares (i : nat) (ev : Event) : bool :=
  match drag_subject ev with
  | Some j => negb (Nat.eqb j i)
  | None => true
  end.

(** The event sets a pin. *)
Definition pins_subject (ev : Event) : bool :=
  match ev with
  | DragStart _ | DragMove _ => true
  | _ => false
  end.

(** The number of clicks on the button among the events. *)
Fixpoint clicks (evs : list Event) : nat :=
  match evs with
  | [] => 0
  | Click :: rest => S (clicks rest)
  | _ :: rest => clicks rest
  end.


(** * Properties *)

(** ** JavaScript helpers *)

Lemma js_filter_truthy {A B} (p : A -> Js.Value B) (xs : list A) :
  (forall a, Js.truthy (p a) = true) -> Js.filter p xs = xs.
Proof.
  intros Hp. unfold Js.filter.
  induction xs as [|a xs IH]; simpl; [reflexivity|].
  rewrite Hp. f_equal. exact IH.
Qed.

Lemma existsb_eqb_In (s : string) (l : list string) :
  existsb (String.eqb s) l = true <-> In s l.
Proof.
  rewrite existsb_exists. split.
  - intros [y [Hy He]]. apply String.eqb_eq in He. subst. exact Hy.
  - intros H. exists s. split; [exact H | apply String.eqb_refl].
Qed.

Lemma set_spread_In (s : string) (xs seen : list string) :
  In s (Js.set_spread seen xs) <-> In s xs /\ ~ In s seen.
Proof.
  revert seen. induction xs as [|h xs IH]; intros seen; simpl.
  - tauto.
  - destruct (existsb (String.eqb h) seen) eqn:E.
    + apply existsb_eqb_In in E. rewrite IH. split.
      * intros [H1 H2]. tauto.
      * intros [[->|H1] H2]; [contradiction | tauto].
    + assert (Hh : ~ In h seen).
      { intros H. apply existsb_eqb_In in H. congruence. }
      simpl. rewrite IH. simpl. split.
      * intros [->|[H1 H2]]; [tauto|]. split; [tauto|]. tauto.
      * intros [[->|H1] H2]; [tauto|].
        destruct (String.string_dec h s) as [->|Hne]; [tauto|]. right. tauto.
Qed.

(** *** Doubles *)

Lemma zero_not_positive (n : float) :
  (n =? 0)%float = true -> (0 <? n)%float = false.
Proof.
  rewrite (FloatAxioms.eqb_spec n 0), (FloatAxioms.ltb_spec 0 n).
  change (Prim2SF 0) with (S754_zero false).
  unfold SFeqb, SFltb.
  destruct (Prim2SF n) as [s|s| |s m e]; simpl;
    try discriminate; try reflexivity; destruct s; discriminate.
Qed.

Lemma nan_not_positive (n : float) :
  is_nan n = true -> (0 <? n)%float = false.
Proof.
  unfold is_nan.
  rewrite (FloatAxioms.eqb_spec n n), (FloatAxioms.ltb_spec 0 n).
  change (Prim2SF 0) with (S754_zero false).
  unfold SFeqb, SFltb.
  destruct (Prim2SF n) as [s|s| |s m e]; simpl;
    try discriminate; try reflexivity.
  - destruct s; discriminate.
  - destruct s; simpl; rewrite Z.compare_refl, Pos.compare_cont_refl;
      discriminate.
Qed.

(** [(v || 0) > 0] is [v > 0]: the values that [|| 0] replaces are not
    positive. *)
Lemma gt_zero_or_zero (v : Js.Dyn) : Js.gt_zero (Js.or_zero v) = Js.gt_zero v.
Proof.
  destruct v as [|n| |]; try reflexivity.
  unfold Js.or_zero, Js.truthy_dyn.
  destruct (n =? 0)%float eqn:E0; simpl.
  - symmetry. apply zero_not_positive, E0.
  - destruct (is_nan n) eqn:En; simpl; [|reflexivity].
    symmetry. apply nan_not_positive, En.
Qed.

(** *** The totals object *)

Lemma inherited_not_proto (k : string) :
  Js.inherited k = false -> (k =? "__proto__") = false.
Proof.
  intros H. destruct (String.eqb_spec k "__proto__") as [->|]; [|reflexivity].
  discriminate H.
Qed.

Lemma get_set_eq (k : string) (v : Js.Dyn) (m : gmap string Js.Dyn) :
  (k =? "__proto__") = false -> Js.get (Js.set k v m) k = v.
Proof.
  intros H. unfold Js.get, Js.set. rewrite H, lookup_insert_eq. reflexivity.
Qed.

Lemma get_set_ne (k j : string) (v : Js.Dyn) (m : gmap string Js.Dyn) :
  k <> j -> Js.get (Js.set k v m) j = Js.get m j.
Proof.
  intros H. unfold Js.get, Js.set.
  destruct (k =? "__proto__"); [reflexivity|].
  rewrite lookup_insert_ne by exact H. reflexivity.
Qed.

(** [m[k] ??= 0; m[k] += c] read back at another key. *)
Lemma bump_get_ne (k j : string) (c : float) (m : gmap string Js.Dyn) :
  k <> j ->
  Js.get (Js.add_assign k c (Js.nullish_assign_zero k m)) j = Js.get m j.
Proof.
  intros H. unfold Js.add_assign, Js.nullish_assign_zero.
  rewrite get_set_ne by exact H.
  destruct (Js.get m k); try reflexivity. apply get_set_ne, H.
Qed.

(** The same read back at [k], when [k] is no inherited name: a number,
    the running double with [c] added. *)
Lemma bump_tracks (k : string) (c acc : float) (m : gmap string Js.Dyn) :
  Js.inherited k = false -> tracks m k acc ->
  Js.get (Js.add_assign k c (Js.nullish_assign_zero k m)) k
  = Js.Num (acc + c)%float.
Proof.
  intros Hk Ht. pose proof (inherited_not_proto k Hk) as Hp.
  unfold Js.add_assign, Js.nullish_assign_zero.
  rewrite get_set_eq by exact Hp.
  destruct Ht as [[Hu ->] | Hn].
  - rewrite Hu, get_set_eq by exact Hp. reflexivity.
  - rewrite Hn, Hn. reflexivity.
Qed.

(** And when [k] reads an inherited object or a string: [??=] does not
    fire and [+=] leaves a string, or nothing under [__proto__]. *)
Lemma bump_clobbered (k : string) (c : float) (m : gmap string Js.Dyn) :
  clobbered m k ->
  clobbered (Js.add_assign k c (Js.nullish_assign_zero k m)) k.
Proof.
  intros Hc. unfold Js.add_assign, Js.nullish_assign_zero.
  assert (Hn : match Js.get m k with
               | Js.Undefined => Js.set k (Js.Num 0) m
               | _ => m
               end = m) by (destruct Hc as [-> | ->]; reflexivity).
  rewrite Hn.
  assert (Hplus : Js.plus (Js.get m k) c = Js.Text)
    by (destruct Hc as [-> | ->]; reflexivity).
  rewrite Hplus. unfold clobbered, Js.get, Js.set.
  destruct (k =? "__proto__") eqn:E.
  - exact Hc.
  - rewrite lookup_insert_eq. right. reflexivity.
Qed.

Lemma tracks_ne (k j : string) (c acc : float) (m : gmap string Js.Dyn) :
  k <> j -> tracks m j acc ->
  tracks (Js.add_assign k c (Js.nullish_assign_zero k m)) j acc.
Proof. intros H Ht. unfold tracks. rewrite bump_get_ne by exact H. exact Ht. Qed.

Lemma credit_tracks (k j : string) (c acc : float) (m : gmap string Js.Dyn) :
  Js.inherited j = false -> tracks m j acc ->
  tracks (Js.add_assign k c (Js.nullish_assign_zero k m)) j
         (credit acc (k =? j) c).
Proof.
  intros Hj Ht. destruct (String.eqb_spec k j) as [->|Hne]; simpl.
  - right. apply bump_tracks; assumption.
  - apply tracks_ne; assumption.
Qed.

Lemma flightMap_step_tracks (m : gmap string Js.Dyn) (f : Flight) (k : string)
  (acc : float) :
  Js.inherited k = false -> tracks m k acc ->
  tracks (flightMap_step m f) k
         (credit (credit acc (origin f =? k) (count f))
                 (destination f =? k) (count f)).
Proof.
  intros Hk Ht. unfold flightMap_step.
  apply credit_tracks; [exact Hk|]. apply credit_tracks; assumption.
Qed.

Lemma flightMap_fold_tracks (fs : list Flight) (m : gmap string Js.Dyn)
  (k : string) (acc : float) :
  Js.inherited k = false -> tracks m k acc ->
  tracks (fold_left flightMap_step fs m) k
         (fold_left (fun acc f =>
                       credit (credit acc (origin f =? k) (count f))
                              (destination f =? k) (count f)) fs acc).
Proof.
  intros Hk. revert m acc. induction fs as [|f fs IH]; intros m acc Ht; simpl.
  - exact Ht.
  - apply IH, flightMap_step_tracks; assumption.
Qed.

Lemma flightMap_step_clobbered (m : gmap string Js.Dyn) (f : Flight)
  (k : string) :
  clobbered m k -> clobbered (flightMap_step m f) k.
Proof.
  intros Hc. unfold flightMap_step.
  assert (Hone : forall j c m', clobbered m' k ->
            clobbered (Js.add_assign j c (Js.nullish_assign_zero j m')) k).
  { intros j c m' Hc'. destruct (String.eqb_spec j k) as [->|Hne].
    - apply bump_clobbered, Hc'.
    - unfold clobbered. rewrite bump_get_ne by exact Hne. exact Hc'. }
  apply Hone, Hone, Hc.
Qed.

Lemma flightMap_fold_clobbered (fs : list Flight) (m : gmap string Js.Dyn)
  (k : string) :
  clobbered m k -> clobbered (fold_left flightMap_step fs m) k.
Proof.
  revert m. induction fs as [|f fs IH]; intros m Hc; simpl; [exact Hc|].
  apply IH, flightMap_step_clobbered, Hc.
Qed.

(** ** The dataset pipeline *)

Section DatasetFacts.

Variable _airports : list RawAirport.
Variable _flights : list RawFlight.
Variable Number : string -> float.

Lemma airports_unfiltered :
  airports _airports _flights Number = map (to_airport Number) _airports.
Proof.
  unfold airports. rewrite js_filter_truthy; [reflexivity|].
  intros a. reflexivity.
Qed.

(** Under a name that is not inherited, the totals object holds the
    double the flights add up to, or nothing if no flight names it. *)
Lemma flightMap_tracks (k : string) :
  Js.inherited k = false ->
  tracks (flightMap _flights Number) k
         (double_flow (flights _flights Number) k).
Proof.
  intros Hk. unfold flightMap, double_flow.
  apply flightMap_fold_tracks; [exact Hk|].
  left. split; [|reflexivity].
  unfold Js.get. rewrite lookup_empty, Hk. reflexivity.
Qed.

(** Under an inherited name it never holds a number. *)
Lemma flightMap_clobbered (k : string) :
  Js.inherited k = true -> clobbered (flightMap _flights Number) k.
Proof.
  intros Hk. unfold flightMap. apply flightMap_fold_clobbered.
  left. unfold Js.get. rewrite lookup_empty, Hk. reflexivity.
Qed.

(** The test of line 33 on the total of line 32. *)
Lemma total_test (a : Airport) :
  Js.gt_zero (total (with_total _flights Number a))
  = negb (Js.inherited (iata a))
    && (0 <? double_flow (flights _flights Number) (iata a))%float.
Proof.
  unfold with_total. cbn [total]. rewrite gt_zero_or_zero.
  destruct (Js.inherited (iata a)) eqn:Hk; simpl.
  - destruct (flightMap_clobbered _ Hk) as [-> | ->]; reflexivity.
  - destruct (flightMap_tracks _ Hk) as [[-> ->] | ->]; reflexivity.
Qed.

Lemma airportsWithTotal_In (n : AirportWithTotalFlights) :
  In n (airportsWithTotal _airports _flights Number) <->
  exists a, In a _airports
            /\ n = with_total _flights Number (to_airport Number a)
            /\ Js.gt_zero (total n) = true.
Proof.
  unfold airportsWithTotal. rewrite filter_In, airports_unfiltered, map_map.
  rewrite in_map_iff. split.
  - intros [[a [Ha Hin]] Hpos]. exists a. auto.
  - intros [a [Hin [Ha Hpos]]]. split; [exists a; auto | exact Hpos].
Qed.

End DatasetFacts.




(** C9.  The filter of line 16 keeps every row of the airports table,
    because its callback returns a function, which is truthy; the only
    exclusion is the later test [flights > 0] of line 33; and the states
    list of line 36 has the state of every row of the table, simulated
    or not. *)
Theorem flightless_filter_keeps_all
  (_airports : list RawAirport) (_flights : list RawFlight)
  (Number : string -> float) :
  Js.filter (has_flights_callback _flights Number) _airports = _airports
  /\ (forall n,
        In n (airportsWithTotal _airports _flights Number) <->
        exists a, In a _airports
                  /\ n = with_total _flights Number (to_airport Number a)
                  /\ Js.gt_zero (total n) = true)
  /\ (forall a, In a _airports ->
                In (raw_state a) (states _airports _flights Number)).
Proof.
  split; [|split].
  - apply js_filter_truthy. intros a. reflexivity.
  - apply airportsWithTotal_In.
  - intros a Ha. unfold states. apply set_spread_In. split; [|tauto].
    rewrite airports_unfiltered, map_map. apply in_map_iff.
    exists a. split; [reflexivity | exact Ha].
Qed.

(** On the fixture: Anchorage survives line 16 although no flight
    mentions it, its state is in the states list, and it is not
    simulated. *)
Lemma flightless_filter_keeps_all_witness :
  In Fixture.ANC
     (Js.filter (has_flights_callback Fixture.flights_csv Fixture.Number)
                Fixture.airports_csv)
  /\ In "AK" (states Fixture.airports_csv Fixture.flights_csv Fixture.Number)
  /\ ~ In "ANC"
       (map (fun n => iata (airport n))
            (airportsWithTotal Fixture.airports_csv Fixture.flights_csv
                               Fixture.Number)).
Proof.
  destruct (flightless_filter_keeps_all Fixture.airports_csv
              Fixture.flights_csv Fixture.Number) as [Hkeep [_ Hstates]].
  split; [|split].
  - rewrite Hkeep. simpl. tauto.
  - apply (Hstates Fixture.ANC). simpl. tauto.
  - vm_compute. intros [H|[H|[]]]; discriminate H.
Defined.

(** ** The force registry *)

Section Registry.

Implicit Types (k : string) (v : Force) (m : list (string * Force)).

Lemma map_get_set_eq k v m : map_get k (map_set k v m) = Some v.
Proof.
  induction m as [|[k' v'] m IH]; simpl.
  - rewrite String.eqb_refl. reflexivity.
  - destruct (k' =? k) eqn:E; simpl; rewrite E; [reflexivity | exact IH].
Qed.

Lemma map_get_set_ne k k' v m :
  k <> k' -> map_get k (map_set k' v m) = map_get k m.
Proof.
  intros Hne. induction m as [|[k0 v0] m IH]; simpl.
  - destruct (String.eqb_spec k' k); [congruence | reflexivity].
  - destruct (String.eqb_spec k0 k') as [->|H0]; simpl.
    + destruct (String.eqb_spec k' k); [congruence | reflexivity].
    + destruct (k0 =? k); [reflexivity | exact IH].
Qed.

Lemma map_get_delete_eq k m : map_get k (map_delete k m) = None.
Proof.
  induction m as [|[k' v'] m IH]; simpl; [reflexivity|].
  destruct (k' =? k) eqn:E; simpl; [exact IH|]. rewrite E. exact IH.
Qed.

Lemma map_get_delete_ne k k' m :
  k <> k' -> map_get k (map_delete k' m) = map_get k m.
Proof.
  intros Hne. induction m as [|[k0 v0] m IH]; simpl; [reflexivity|].
  destruct (String.eqb_spec k0 k') as [->|H0]; simpl.
  - destruct (String.eqb_spec k' k); [congruence | exact IH].
  - destruct (k0 =? k); [reflexivity | exact IH].
Qed.

(** Setting a key to the value it already has changes nothing, not even
    the order. *)
Lemma map_set_id k v m : map_get k m = Some v -> map_set k v m = m.
Proof.
  induction m as [|[k' v'] m IH]; simpl; [discriminate|].
  destruct (k' =? k); intros H.
  - congruence.
  - f_equal. apply IH. exact H.
Qed.

Lemma map_delete_id k m : map_get k m = None -> map_delete k m = m.
Proof.
  induction m as [|[k' v'] m IH]; simpl; [reflexivity|].
  destruct (k' =? k); simpl; intros H; [discriminate|].
  f_equal. apply IH. exact H.
Qed.

End Registry.

(** Reads of the registry through a stack of sets and deletes under
    distinct literal names. *)
Ltac registry :=
  repeat first
    [ rewrite map_get_set_eq
    | rewrite map_get_delete_eq
    | rewrite map_get_set_ne by discriminate
    | rewrite map_get_delete_ne by discriminate ];
  try reflexivity.

(** C6.  Running the mode effect a second time for the same mode leaves
    the registry of active forces as the first run left it. *)
Theorem mode_effect_idempotent (t : bool) (s : Simulation) :
  forces (mode_effect t (mode_effect t s)) = forces (mode_effect t s).
Proof.
  unfold mode_effect, force, restart. destruct t; cbn [forces set_forces set_alphaTarget set_running].
  - rewrite (map_delete_id "link") by registry.
    rewrite (map_delete_id "charge") by registry.
    rewrite (map_delete_id "center") by registry.
    rewrite (map_set_id "x") by registry.
    rewrite (map_set_id "y") by registry.
    reflexivity.
  - rewrite (map_set_id "link") by registry.
    rewrite (map_set_id "charge") by registry.
    rewrite (map_set_id "center") by registry.
    rewrite (map_delete_id "x") by registry.
    rewrite (map_delete_id "y") by registry.
    reflexivity.
Qed.

(** ** Reachable states of the mounted component *)

Section Reachable.

Context {d3 : D3}.

Lemma mode_effect_registry (t : bool) (s : Simulation) :
  forces s = network_forces \/ forces s = map_forces ->
  forces (mode_effect t s) = registry_of t.
Proof.
  unfold mode_effect, force, restart.
  cbn [forces set_forces set_alphaTarget set_running].
  intros [-> | ->]; destruct t; reflexivity.
Qed.

Lemma mode_effect_alphaTarget (t : bool) (s : Simulation) :
  alphaTarget (mode_effect t s) = 1%Q.
Proof. reflexivity. Qed.

Lemma mode_effect_running (t : bool) (s : Simulation) :
  running (mode_effect t s) = true.
Proof. reflexivity. Qed.

Lemma registry_of_cases (t : bool) :
  registry_of t = network_forces \/ registry_of t = map_forces.
Proof. destruct t; [right | left]; reflexivity. Qed.

Lemma dragstarted_forces e s : forces (dragstarted e s) = forces s.
Proof. unfold dragstarted. destruct (Nat.eqb (active e) 0); reflexivity. Qed.

Lemma dragged_forces e s : forces (dragged e s) = forces s.
Proof. reflexivity. Qed.

Lemma dragended_forces e s : forces (dragended e s) = forces s.
Proof. unfold dragended. destruct (Nat.eqb (active e) 0); reflexivity. Qed.

Lemma step_forces s : forces (step s) = forces s.
Proof. unfold step. destruct (Qltb _ _); reflexivity. Qed.

Lemma step_alphaTarget s : alphaTarget (step s) = alphaTarget s.
Proof. unfold step. destruct (Qltb _ _); reflexivity. Qed.

Lemma handle_registry_inv (a : AppState) (ev : Event) :
  registry_inv a -> registry_inv (handle a ev).
Proof.
  intros [Hf Ht]. unfold registry_inv.
  destruct ev as [|e|e|e|]; cbn [handle sim toggleMap].
  - split; [|rewrite mode_effect_alphaTarget; lra].
    apply mode_effect_registry. rewrite Hf. apply registry_of_cases.
  - rewrite dragstarted_forces. split; [exact Hf|].
    unfold dragstarted. destruct (Nat.eqb (active e) 0); simpl; [lra | exact Ht].
  - split; [exact Hf | exact Ht].
  - rewrite dragended_forces. split; [exact Hf|].
    unfold dragended. destruct (Nat.eqb (active e) 0); simpl; [lra | exact Ht].
  - destruct (running (sim a)); cbn [sim toggleMap]; [|split; assumption].
    rewrite step_forces, step_alphaTarget. split; assumption.
Qed.

Lemma run_registry_inv (evs : list Event) (a : AppState) :
  registry_inv a -> registry_inv (run a evs).
Proof.
  revert a. induction evs as [|ev evs IH]; intros a Ha; simpl; [exact Ha|].
  apply IH, handle_registry_inv, Ha.
Qed.

Variable _airports : list RawAirport.
Variable _flights : list RawFlight.
Variable Number : string -> float.

(** What a successful construction (lines 161-168) leaves behind. *)
Lemma simulation_built (s0 : Simulation) :
  simulation _airports _flights Number = inr s0 ->
  nodes s0 = initializeNodes (airportsWithTotal _airports _flights Number)
  /\ forces s0 = network_forces
  /\ alpha s0 = 1%Q /\ alphaTarget s0 = 0%Q /\ running s0 = true
  /\ forceLink_initialize
       (initializeNodes (airportsWithTotal _airports _flights Number))
       (links _flights Number) = inr (resolved s0).
Proof.
  unfold simulation. cbn [nodes forceSimulation].
  destruct (forceLink_initialize _ _) as [e|ls]; simpl; [discriminate|].
  intros H. injection H as <-. repeat split; reflexivity.
Qed.

Lemma App_registry_inv (s0 : Simulation) :
  simulation _airports _flights Number = inr s0 -> registry_inv (App s0).
Proof.
  intros H. apply simulation_built in H. destruct H as (_ & Hf & _).
  split; simpl.
  - apply (mode_effect_registry false). left. exact Hf.
  - lra.
Qed.

End Reachable.

(** C2.  In every state the mounted component can reach, running the
    mode effect for map mode leaves exactly the two positional forces
    registered, and for network mode exactly many-body, link and
    centering; either way the alpha target, which was at most 1, becomes
    1 and the timer is restarted. *)
Theorem mode_switch_swaps_forces
  {d3 : D3} (_airports : list RawAirport) (_flights : list RawFlight)
  (Number : string -> float) (s0 : Simulation) (evs : list Event) :
  simulation _airports _flights Number = inr s0 ->
  let s := sim (run (App s0) evs) in
  forces (mode_effect true s) = [("x", forceX); ("y", forceY)]
  /\ forces (mode_effect false s)
     = [("link", forceLink); ("charge", forceNode); ("center", forceCenter)]
  /\ forall t, (alphaTarget s <= alphaTarget (mode_effect t s))%Q
               /\ alphaTarget (mode_effect t s) = 1%Q
               /\ running (mode_effect t s) = true.
Proof.
  intros H s.
  destruct (run_registry_inv evs (App s0) (App_registry_inv _ _ _ s0 H))
    as [Hf Ht].
  fold s in Hf, Ht.
  assert (Hc : forces s = network_forces \/ forces s = map_forces).
  { rewrite Hf. apply registry_of_cases. }
  split; [|split].
  - apply (mode_effect_registry true s Hc).
  - apply (mode_effect_registry false s Hc).
  - intros t. rewrite mode_effect_alphaTarget. auto.
Qed.

Lemma mode_switch_swaps_forces_witness :
  simulation (d3 := Fixture.toy_d3) Fixture.airports_csv Fixture.flights_csv Fixture.Number
  = inr Fixture.s0
  /\ let s := sim (run (d3 := Fixture.toy_d3) (App Fixture.s0) [Click; Frame; Click]) in
     forces (mode_effect true s) = [("x", forceX); ("y", forceY)]
     /\ forces (mode_effect false s)
        = [("link", forceLink); ("charge", forceNode); ("center", forceCenter)]
     /\ forall t, (alphaTarget s <= alphaTarget (mode_effect t s))%Q
                  /\ alphaTarget (mode_effect t s) = 1%Q
                  /\ running (mode_effect t s) = true.
Proof.
  split.
  - vm_compute. reflexivity.
  - apply (mode_switch_swaps_forces (d3 := Fixture.toy_d3) Fixture.airports_csv Fixture.flights_csv
             Fixture.Number Fixture.s0 [Click; Frame; Click]).
    vm_compute. reflexivity.
Defined.

(** ** Cooling *)

Lemma map_fmap {A B} (f : A -> B) (l : list A) : map f l = f <$> l.
Proof. reflexivity. Qed.

#[export] Instance toy_d3_laws : D3Laws Fixture.toy_d3.
Proof.
  split; simpl.
  - lra.
  - lra.
  - reflexivity.
  - intros ls d a ps. unfold Fixture.toy_spring.
    rewrite !map_fmap, fmap_imap, <- imap_const.
    apply imap_ext. intros i p _. reflexivity.
  - reflexivity.
Qed.

Section Cooling.

Context {d3 : D3} {laws : D3Laws d3}.

Lemma cooled_bound (s : Simulation) :
  (0.3 <= alpha s)%Q -> (0.3 <= alphaTarget s)%Q -> (0.3 <= cooled s)%Q.
Proof.
  intros Ha Ht. unfold cooled.
  destruct alphaDecay_range as [H0 H1].
  assert (0 <= (1 - alphaDecay) * (alpha s - 0.3))%Q
    by (apply Qmult_le_0_compat; lra).
  assert (0 <= alphaDecay * (alphaTarget s - 0.3))%Q
    by (apply Qmult_le_0_compat; lra).
  lra.
Qed.

Lemma target_floor (s : Simulation) :
  alphaTarget s = 1%Q \/ alphaTarget s = 0.3%Q \/ alphaTarget s = 0.7%Q ->
  (0.3 <= alphaTarget s)%Q.
Proof. intros [-> | [-> | ->]]; lra. Qed.

Lemma step_cooling_inv (s : Simulation) : cooling_inv s -> cooling_inv (step s).
Proof.
  intros (Ht & Ha & Hr).
  assert (Hc : (0.3 <= cooled s)%Q) by (apply cooled_bound; auto using target_floor).
  unfold step, Qltb. cbn [tick alpha set_nodes set_alpha].
  assert (Hle : Qle_bool alphaMin (cooled s) = true).
  { apply Qle_bool_iff. pose proof alphaMin_small. lra. }
  rewrite Hle. cbn [negb].
  split; [exact Ht | split; [exact Hc | exact Hr]].
Qed.

Lemma mode_effect_cooling_inv (t : bool) (s : Simulation) :
  (0.3 <= alpha s)%Q -> cooling_inv (mode_effect t s).
Proof.
  intros Ha. split; [left; reflexivity | split; [|reflexivity]].
  destruct t; exact Ha.
Qed.

Lemma handle_cooling_inv (a : AppState) (ev : Event) :
  cooling_inv (sim a) -> cooling_inv (sim (handle a ev)).
Proof.
  intros (Ht & Ha & Hr).
  destruct ev as [|e|e|e|]; cbn [handle sim].
  - apply mode_effect_cooling_inv, Ha.
  - unfold dragstarted. destruct (Nat.eqb (active e) 0);
      (split; [|split]); simpl; auto.
  - (split; [|split]); simpl; auto.
  - unfold dragended. destruct (Nat.eqb (active e) 0);
      (split; [|split]); simpl; auto.
  - rewrite Hr. cbn [sim]. apply step_cooling_inv.
    split; [exact Ht | split; [exact Ha | exact Hr]].
Qed.

Lemma run_cooling_inv (evs : list Event) (a : AppState) :
  cooling_inv (sim a) -> cooling_inv (sim (run a evs)).
Proof.
  revert a. induction evs as [|ev evs IH]; intros a Ha; simpl; [exact Ha|].
  apply IH, handle_cooling_inv, Ha.
Qed.

End Cooling.

(** C10.  In every state the mounted component can reach, the alpha
    target is 1, 0.3 or 0.7, never the resting value 0; alpha itself
    stays at or above 0.3, above the threshold under which the timer
    would stop, and the timer is running. *)
Theorem alpha_target_never_rests
  {d3 : D3} {laws : D3Laws d3}
  (_airports : list RawAirport) (_flights : list RawFlight)
  (Number : string -> float) (s0 : Simulation) (evs : list Event) :
  simulation _airports _flights Number = inr s0 ->
  let s := sim (run (App s0) evs) in
  (alphaTarget s = 1%Q \/ alphaTarget s = 0.3%Q \/ alphaTarget s = 0.7%Q)
  /\ (0.3 <= alphaTarget s)%Q
  /\ ~ (alphaTarget s == 0)%Q
  /\ (alphaMin <= alpha s)%Q /\ (0.3 <= alpha s)%Q
  /\ running s = true.
Proof.
  intros H s.
  apply simulation_built in H. destruct H as (_ & _ & Ha & _).
  assert (Hinv : cooling_inv s).
  { apply run_cooling_inv. cbn [App sim].
    apply mode_effect_cooling_inv. rewrite Ha. lra. }
  destruct Hinv as (Ht & Hal & Hr).
  pose proof (target_floor s Ht) as Hfloor. pose proof alphaMin_small as Hmin.
  split; [exact Ht|]. split; [exact Hfloor|]. split; [lra|].
  split; [lra|]. split; [exact Hal | exact Hr].
Qed.

Lemma alpha_target_never_rests_witness :
  simulation (d3 := Fixture.toy_d3) Fixture.airports_csv Fixture.flights_csv Fixture.Number
  = inr Fixture.s0
  /\ let s := sim (run (d3 := Fixture.toy_d3) (App Fixture.s0)
                       [Frame; DragStart Fixture.drag_JFK; Frame;
                        DragEnd Fixture.drag_JFK; Frame]) in
     (alphaTarget s = 1%Q \/ alphaTarget s = 0.3%Q \/ alphaTarget s = 0.7%Q)
     /\ (0.3 <= alphaTarget s)%Q
     /\ ~ (alphaTarget s == 0)%Q
     /\ (alphaMin (D3 := Fixture.toy_d3) <= alpha s)%Q /\ (0.3 <= alpha s)%Q
     /\ running s = true.
Proof.
  split.
  - vm_compute. reflexivity.
  - apply (alpha_target_never_rests (laws := toy_d3_laws)
             Fixture.airports_csv Fixture.flights_csv Fixture.Number
             Fixture.s0).
    vm_compute. reflexivity.
Defined.

(** ** Drag gestures *)

Lemma dragended_clears_pin (e : DragEvent) (s : Simulation) (p : Particle) :
  nodes (dragended e s) !! subject e = Some p -> pin p = (None, None).
Proof.
  unfold dragended, update_subject. cbn [nodes set_nodes].
  replace (nodes (if Nat.eqb (active e) 0
                  then simulation_api.set_alphaTarget 0.7%Q s else s))
    with (nodes s) by (destruct (Nat.eqb (active e) 0); reflexivity).
  rewrite list_lookup_alter_eq.
  destruct (nodes s !! subject e) as [q|]; simpl; [|discriminate].
  intros H. injection H as <-. reflexivity.
Qed.

(** C1, as the specification states it, fails: on the fixture, with no
    other gesture active, the alpha target that the end of a drag sets is
    not below the one its start set. *)
Lemma drag_end_lowers_target_counterexample :
  ~ (alphaTarget (dragended Fixture.drag_JFK
                    (dragstarted Fixture.drag_JFK Fixture.s0))
     < alphaTarget (dragstarted Fixture.drag_JFK Fixture.s0))%Q.
Proof. vm_compute. intros H. discriminate H. Qed.

(** C1, amended.  When no other gesture is active, the start of a drag
    sets the alpha target to 0.3 and the end of a drag sets it to 0.7, so
    the end leaves it strictly above what the start set; the end also
    clears the subject's pin. *)
Theorem drag_end_raises_target (e e' : DragEvent) (s s' : Simulation) :
  active e = 0 -> active e' = 0 ->
  alphaTarget (dragstarted e s) = 0.3%Q
  /\ alphaTarget (dragended e' s') = 0.7%Q
  /\ (alphaTarget (dragstarted e s) < alphaTarget (dragended e' s'))%Q
  /\ forall p, nodes (dragended e' s') !! subject e' = Some p ->
               pin p = (None, None).
Proof.
  intros He He'.
  assert (H1 : alphaTarget (dragstarted e s) = 0.3%Q).
  { unfold dragstarted. rewrite He. reflexivity. }
  assert (H2 : alphaTarget (dragended e' s') = 0.7%Q).
  { unfold dragended. rewrite He'. reflexivity. }
  split; [exact H1|]. split; [exact H2|]. split.
  - rewrite H1, H2. reflexivity.
  - apply dragended_clears_pin.
Qed.

Lemma drag_end_raises_target_witness :
  active Fixture.drag_JFK = 0
  /\ alphaTarget (dragstarted Fixture.drag_JFK Fixture.s0) = 0.3%Q
  /\ alphaTarget (dragended Fixture.drag_JFK
                    (dragstarted Fixture.drag_JFK Fixture.s0)) = 0.7%Q.
Proof.
  split; [reflexivity|].
  destruct (drag_end_raises_target Fixture.drag_JFK Fixture.drag_JFK
              Fixture.s0 (dragstarted Fixture.drag_JFK Fixture.s0)
              eq_refl eq_refl) as (H1 & H2 & _).
  split; [exact H1 | exact H2].
Defined.

(** ** Pinned particles *)

Section Pinning.

Context {d3 : D3} {laws : D3Laws d3}.

Lemma integrate_pin (p : Particle) : pin (integrate p) = pin p.
Proof. unfold pin, integrate. destruct (fx p), (fy p); reflexivity. Qed.

Lemma integrate_pinned_x (p : Particle) (px : Q) :
  fx p = Some px -> x (integrate p) = px /\ vx (integrate p) = 0%Q.
Proof. unfold integrate. intros ->. destruct (fy p); split; reflexivity. Qed.

Lemma integrate_pinned_y (p : Particle) (py : Q) :
  fy p = Some py -> y (integrate p) = py /\ vy (integrate p) = 0%Q.
Proof. unfold integrate. intros ->. destruct (fx p); split; reflexivity. Qed.

Lemma integrate_free_x (p : Particle) :
  fx p = None -> x (integrate p) = (x p + vx p * velocityDecay)%Q.
Proof. unfold integrate. intros ->. destruct (fy p); reflexivity. Qed.

Lemma apply_force_pins (ls : list ResolvedLink) (f : Force) (a : Q)
  (ps : list Particle) :
  map pin (apply_force ls f a ps) = map pin ps.
Proof.
  destruct f; simpl.
  - apply manyBody_pins.
  - apply spring_pins.
  - apply centering_pins.
  - rewrite map_map. apply map_ext. reflexivity.
  - rewrite map_map. apply map_ext. reflexivity.
Qed.

Lemma accumulate_pins (s : Simulation) (a : Q) :
  map pin (accumulate s a) = map pin (nodes s).
Proof.
  unfold accumulate. generalize (nodes s) as ps.
  induction (forces s) as [|kf fs IH]; intros ps; simpl; [reflexivity|].
  rewrite IH. apply apply_force_pins.
Qed.

Lemma tick_nodes (s : Simulation) :
  nodes (tick s) = map integrate (accumulate s (cooled s)).
Proof. reflexivity. Qed.

(** A tick keeps every pin, and puts every pinned coordinate on its pin. *)
Lemma tick_pinned (s : Simulation) (i : nat) (p : Particle) :
  nodes s !! i = Some p ->
  exists p', nodes (tick s) !! i = Some p'
    /\ pin p' = pin p
    /\ (forall px, fx p = Some px -> x p' = px)
    /\ (forall py, fy p = Some py -> y p' = py).
Proof.
  intros Hp.
  assert (Hq : exists q, accumulate s (cooled s) !! i = Some q /\ pin q = pin p).
  { pose proof (accumulate_pins s (cooled s)) as Hpins.
    apply (f_equal (fun l => l !! i)) in Hpins.
    rewrite !map_fmap, !list_lookup_fmap, Hp in Hpins. simpl in Hpins.
    destruct (accumulate s (cooled s) !! i) as [q|]; [|discriminate].
    exists q. split; [reflexivity|]. simpl in Hpins. congruence. }
  destruct Hq as [q [Hq Hpin]].
  exists (integrate q). rewrite tick_nodes, map_fmap, list_lookup_fmap, Hq.
  split; [reflexivity|]. split; [rewrite integrate_pin; exact Hpin|].
  unfold pin in Hpin. injection Hpin as Hfx Hfy. split.
  - intros px Hx. apply integrate_pinned_x. congruence.
  - intros py Hy. apply integrate_pinned_y. congruence.
Qed.

Lemma ticks_pinned (n : nat) (s : Simulation) (i : nat) (p : Particle)
  (px py : Q) :
  nodes s !! i = Some p -> pin p = (Some px, Some py) ->
  exists p', nodes (ticks (S n) s) !! i = Some p'
    /\ pin p' = (Some px, Some py) /\ x p' = px /\ y p' = py.
Proof.
  revert s p. induction n as [|n IH]; intros s p Hp Hpin.
  - destruct (tick_pinned s i p Hp) as (p' & Hp' & Hpin' & Hx & Hy).
    exists p'. pose proof Hpin as Hpin0. unfold pin in Hpin0.
    injection Hpin0 as Hfx Hfy.
    simpl. split; [exact Hp'|]. split; [congruence|]. auto.
  - destruct (tick_pinned s i p Hp) as (p' & Hp' & Hpin' & _).
    change (ticks (S (S n)) s) with (ticks (S n) (tick s)).
    apply (IH (tick s) p' Hp'). congruence.
Qed.

Lemma tick_free_x (s : Simulation) (j : nat) (q : Particle) :
  accumulate s (cooled s) !! j = Some q -> fx q = None ->
  exists q', nodes (tick s) !! j = Some q'
             /\ x q' = (x q + vx q * velocityDecay)%Q.
Proof.
  intros Hq Hfree. exists (integrate q).
  rewrite tick_nodes, map_fmap, list_lookup_fmap, Hq.
  split; [reflexivity | apply integrate_free_x, Hfree].
Qed.

End Pinning.

Lemma dragged_sets_pin (e : DragEvent) (s : Simulation) :
  subject e < length (nodes s) ->
  exists p, nodes (dragged e s) !! subject e = Some p
            /\ pin p = (Some (event_x e), Some (event_y e)).
Proof.
  intros Hlt. apply lookup_lt_is_Some in Hlt. destruct Hlt as [q Hq].
  exists (set_pin (Some (event_x e)) (Some (event_y e)) q).
  unfold dragged, update_subject. cbn [nodes set_nodes].
  rewrite list_lookup_alter_eq, Hq. split; reflexivity.
Qed.

Lemma dragstarted_sets_pin (e : DragEvent) (s : Simulation) (q : Particle) :
  nodes s !! subject e = Some q ->
  exists p, nodes (dragstarted e s) !! subject e = Some p
            /\ pin p = (Some (x q), Some (y q)) /\ x p = x q /\ y p = y q.
Proof.
  intros Hq. exists (set_pin (Some (x q)) (Some (y q)) q).
  unfold dragstarted, update_subject. cbn [nodes set_nodes].
  replace (nodes (if Nat.eqb (active e) 0
                  then simulation_api.restart
                         (simulation_api.set_alphaTarget 0.3%Q s)
                  else s))
    with (nodes s) by (destruct (Nat.eqb (active e) 0); reflexivity).
  rewrite list_lookup_alter_eq, Hq. repeat split; reflexivity.
Qed.

(** C4.  Whatever the library's forces do to velocities and positions,
    as long as they leave the pins alone: after a drag-move has pinned its
    subject to the pointer, the subject's position after any positive
    number of ticks is the pointer position; after a drag-start it stays
    where it was, from the start; and a coordinate that is not pinned is
    not held: a tick moves it by its decayed velocity. *)
Theorem pinned_position_is_pin
  {d3 : D3} {laws : D3Laws d3} (e : DragEvent) (s : Simulation) (n : nat) :
  subject e < length (nodes s) ->
  (exists p', nodes (ticks (S n) (dragged e s)) !! subject e = Some p'
              /\ x p' = event_x e /\ y p' = event_y e
              /\ pin p' = (Some (event_x e), Some (event_y e)))
  /\ (exists p p', nodes s !! subject e = Some p
                   /\ nodes (ticks n (dragstarted e s)) !! subject e = Some p'
                   /\ x p' = x p /\ y p' = y p)
  /\ (forall s' j q,
        accumulate s' (cooled s') !! j = Some q -> fx q = None ->
        exists q', nodes (tick s') !! j = Some q'
                   /\ x q' = (x q + vx q * velocityDecay)%Q).
Proof.
  intros Hlt. split; [|split].
  - destruct (dragged_sets_pin e s Hlt) as (p & Hp & Hpin).
    destruct (ticks_pinned n _ _ _ _ _ Hp Hpin) as (p' & Hp' & Hpin' & Hx & Hy).
    exists p'. auto.
  - destruct (proj2 (lookup_lt_is_Some _ _) Hlt) as [q Hq].
    destruct (dragstarted_sets_pin e s q Hq) as (p & Hp & Hpin & Hx & Hy).
    exists q. destruct n as [|n].
    + exists p. simpl. auto.
    + destruct (ticks_pinned n _ _ _ _ _ Hp Hpin) as (p' & Hp' & _ & Hx' & Hy').
      exists p'. auto.
  - intros s' j q. apply tick_free_x.
Qed.

(** On the fixture: JFK, dragged to (100,100), is there after three
    ticks, while LAX, linked to it and not pinned, has left its place. *)
Lemma pinned_position_is_pin_witness :
  subject Fixture.drag_JFK < length (nodes Fixture.s0)
  /\ (exists p',
        nodes (ticks (d3 := Fixture.toy_d3) 3
                 (dragged Fixture.drag_JFK Fixture.s0)) !! 0 = Some p'
        /\ x p' = 100%Q /\ y p' = 100%Q)
  /\ (x <$> nodes Fixture.s0 !! 1) = Some 100%Q
  /\ (Qred <$> (x <$> nodes (ticks (d3 := Fixture.toy_d3) 3
                        (dragged Fixture.drag_JFK Fixture.s0)) !! 1))
     = Some (1748622587045573 # 19531250000000)%Q.
Proof.
  assert (Hlt : subject Fixture.drag_JFK < length (nodes Fixture.s0))
    by (vm_compute; lia).
  split; [exact Hlt|]. split.
  - destruct (pinned_position_is_pin (laws := toy_d3_laws)
                Fixture.drag_JFK Fixture.s0 2 Hlt)
      as [(p' & Hp' & Hx & Hy & _) _].
    exists p'. auto.
  - split; vm_compute; reflexivity.
Defined.

(** ** The positional anchors of the map layout *)

#[export] Instance toy_positional_laws : PositionalLaws Fixture.toy_d3.
Proof. split; simpl; lra. Qed.

Lemma mode_effect_alpha (t : bool) (s : Simulation) :
  alpha (mode_effect t s) = alpha s.
Proof. destruct t; reflexivity. Qed.

Section Anchors.

Context {d3 : D3}.

(** With the map layout's registry, what one tick does to a node: both
    positional forces add to its velocity, then it is integrated. *)
Lemma map_mode_tick (s : Simulation) (i : nat) (p : Particle) :
  forces s = map_forces ->
  nodes s !! i = Some p ->
  accumulate s (cooled s) !! i
  = Some (positional_y (cooled s) (positional_x (cooled s) p))
  /\ nodes (tick s) !! i
     = Some (integrate (positional_y (cooled s) (positional_x (cooled s) p))).
Proof.
  intros Hf Hp.
  assert (Hq : accumulate s (cooled s) !! i
               = Some (positional_y (cooled s) (positional_x (cooled s) p))).
  { unfold accumulate. rewrite Hf. cbn [map_forces fold_left snd apply_force].
    rewrite !map_fmap, !list_lookup_fmap, Hp. reflexivity. }
  split; [exact Hq|].
  rewrite tick_nodes, map_fmap, list_lookup_fmap, Hq. reflexivity.
Qed.

Context {laws : D3Laws d3}.

Lemma cooled_le_one (s : Simulation) : heat_inv s -> (cooled s <= 1)%Q.
Proof.
  intros [Ha Ht]. unfold cooled.
  destruct alphaDecay_range as [H0 H1].
  assert (0 <= (1 - alphaDecay) * (1 - alpha s))%Q
    by (apply Qmult_le_0_compat; lra).
  assert (0 <= alphaDecay * (1 - alphaTarget s))%Q
    by (apply Qmult_le_0_compat; lra).
  lra.
Qed.

Lemma handle_heat_inv (a : AppState) (ev : Event) :
  heat_inv (sim a) -> heat_inv (sim (handle a ev)).
Proof.
  intros Hinv. pose proof Hinv as [Ha Ht].
  destruct ev as [|e|e|e|]; cbn [handle sim].
  - split; [rewrite mode_effect_alpha; exact Ha
           | rewrite mode_effect_alphaTarget; lra].
  - unfold dragstarted. destruct (Nat.eqb (active e) 0); split; simpl;
      auto; lra.
  - split; simpl; auto.
  - unfold dragended. destruct (Nat.eqb (active e) 0); split; simpl;
      auto; lra.
  - destruct (running (sim a)); cbn [sim]; [|exact Hinv].
    split.
    + unfold step. destruct (Qltb _ _); cbn [alpha tick set_running set_nodes set_alpha];
        apply cooled_le_one, Hinv.
    + rewrite step_alphaTarget. exact Ht.
Qed.

Lemma run_heat_inv (evs : list Event) (a : AppState) :
  heat_inv (sim a) -> heat_inv (sim (run a evs)).
Proof.
  revert a. induction evs as [|ev evs IH]; intros a Ha; simpl; [exact Ha|].
  apply IH, handle_heat_inv, Ha.
Qed.

Context {anchor_laws : PositionalLaws d3}.

(** The fractions by which the positional force acts, for an alpha
    between 0.3 and 1. *)
Lemma anchor_fractions (a : Q) :
  (0.3 <= a <= 1)%Q ->
  (0 < positional_strength * a <= 1)%Q
  /\ (0 < positional_strength * a * velocityDecay < 1)%Q.
Proof.
  intros [Ha0 Ha1].
  destruct strength_range as [Hs0 Hs1].
  destruct velocityDecay_range as [Hv0 Hv1].
  assert (Hf0 : (0 < positional_strength * a)%Q)
    by (apply Qmult_lt_0_compat; lra).
  assert (Hf1 : (0 <= (1 - positional_strength) * a)%Q)
    by (apply Qmult_le_0_compat; lra).
  assert (Hf : (positional_strength * a <= 1)%Q) by lra.
  split; [split; assumption|].
  assert (Hk0 : (0 < positional_strength * a * velocityDecay)%Q)
    by (apply Qmult_lt_0_compat; assumption).
  assert (Hk1 : (0 <= (1 - positional_strength * a) * velocityDecay)%Q)
    by (apply Qmult_le_0_compat; lra).
  split; [exact Hk0 | lra].
Qed.

End Anchors.

(** C7.  In map mode, in every state the mounted component can reach, a
    tick adds to each node's velocity, on each axis, the distance from
    its position to its anchor times the fraction [strength * alpha],
    which lies in (0, 1]; the x-anchor is [scaleLongitude(longitude)] and
    the y-anchor [scaleLatitude(latitude)] of lines 86-100.  A coordinate
    that is not pinned and was at rest therefore moves toward its anchor
    by the fraction [strength * alpha * velocityDecay] of its distance,
    strictly between 0 and 1, and stays short of the anchor by the
    rest. *)
Theorem positional_force_targets_scaled_geography
  {d3 : D3} {laws : D3Laws d3} {anchor_laws : PositionalLaws d3}
  (_airports : list RawAirport) (_flights : list RawFlight)
  (Number : string -> float) (s0 : Simulation) (evs : list Event)
  (i : nat) (p : Particle) :
  simulation _airports _flights Number = inr s0 ->
  toggleMap (run (App s0) evs) = true ->
  nodes (sim (run (App s0) evs)) !! i = Some p ->
  let s := sim (run (App s0) evs) in
  let a := cooled s in
  let tx := scaleLongitude (longitude (airport (datum p))) in
  let ty := scaleLatitude (latitude (airport (datum p))) in
  let k := (positional_strength * a * velocityDecay)%Q in
  (0 < positional_strength * a <= 1)%Q
  /\ (0 < k < 1)%Q
  /\ (exists q, accumulate s a !! i = Some q
             /\ x q = x p /\ y q = y p
             /\ vx q = (vx p + (tx - x p) * positional_strength * a)%Q
             /\ vy q = (vy p + (ty - y p) * positional_strength * a)%Q)
  /\ (exists p', nodes (tick s) !! i = Some p'
        /\ (fx p = None ->
            x p' = (x p + (vx p + (tx - x p) * positional_strength * a)
                          * velocityDecay)%Q)
        /\ (fy p = None ->
            y p' = (y p + (vy p + (ty - y p) * positional_strength * a)
                          * velocityDecay)%Q)
        /\ (fx p = None -> (vx p == 0)%Q ->
            (x p' - x p == k * (tx - x p))%Q
            /\ (tx - x p' == (1 - k) * (tx - x p))%Q)
        /\ (fy p = None -> (vy p == 0)%Q ->
            (y p' - y p == k * (ty - y p))%Q
            /\ (ty - y p' == (1 - k) * (ty - y p))%Q)).
Proof.
  intros H Hmode Hp s a tx ty k.
  assert (Hf : forces s = map_forces).
  { destruct (run_registry_inv evs (App s0) (App_registry_inv _ _ _ s0 H))
      as [Hf _].
    fold s in Hf. rewrite Hf, Hmode. reflexivity. }
  destruct (simulation_built _ _ _ s0 H) as (_ & _ & Ha0 & Ht0 & _).
  assert (Hcool : cooling_inv s).
  { apply run_cooling_inv. cbn [App sim].
    apply mode_effect_cooling_inv. rewrite Ha0. lra. }
  assert (Hheat : heat_inv s).
  { apply run_heat_inv. cbn [App sim]. split.
    - rewrite mode_effect_alpha, Ha0. lra.
    - rewrite mode_effect_alphaTarget. lra. }
  assert (Hrange : (0.3 <= a <= 1)%Q).
  { destruct Hcool as (Ht & Hal & _). split.
    - apply cooled_bound; [exact Hal | apply target_floor, Ht].
    - apply cooled_le_one, Hheat. }
  destruct (anchor_fractions a Hrange) as [Hfrac Hk].
  destruct (map_mode_tick s i p Hf Hp) as [Hq Hp'].
  fold a in Hq, Hp'.
  split; [exact Hfrac|]. split; [exact Hk|]. split.
  - exists (positional_y a (positional_x a p)).
    split; [exact Hq|]. repeat split; reflexivity.
  - exists (integrate (positional_y a (positional_x a p))).
    split; [exact Hp'|].
    assert (Hx : fx p = None ->
                 x (integrate (positional_y a (positional_x a p)))
                 = (x p + (vx p + (tx - x p) * positional_strength * a)
                          * velocityDecay)%Q).
    { intros Hfree. unfold integrate.
      cbn [fx fy positional_x positional_y set_vx set_vy].
      rewrite Hfree. destruct (fy p); reflexivity. }
    assert (Hy : fy p = None ->
                 y (integrate (positional_y a (positional_x a p)))
                 = (y p + (vy p + (ty - y p) * positional_strength * a)
                          * velocityDecay)%Q).
    { intros Hfree. unfold integrate.
      cbn [fx fy positional_x positional_y set_vx set_vy].
      rewrite Hfree. destruct (fx p); reflexivity. }
    split; [exact Hx|]. split; [exact Hy|]. split.
    + intros Hfree Hrest. rewrite (Hx Hfree), Hrest. unfold k.
      split; ring.
    + intros Hfree Hrest. rewrite (Hy Hfree), Hrest. unfold k.
      split; ring.
Qed.

(** On the fixture after one click: JFK, at rest at the origin, moves
    along x by the fraction [0.1 * alpha * 0.6] of its distance to its
    anchor. *)
Lemma positional_force_targets_scaled_geography_witness :
  simulation (d3 := Fixture.toy_d3) Fixture.airports_csv Fixture.flights_csv
             Fixture.Number = inr Fixture.s0
  /\ toggleMap (run (d3 := Fixture.toy_d3) (App Fixture.s0) [Click]) = true
  /\ nodes (sim (run (d3 := Fixture.toy_d3) (App Fixture.s0) [Click])) !! 0
     = Some Fixture.JFK_node
  /\ let s := sim (run (d3 := Fixture.toy_d3) (App Fixture.s0) [Click]) in
     exists p', nodes (tick (d3 := Fixture.toy_d3) s) !! 0 = Some p'
       /\ (x p' - 0
           == 0.1 * cooled (d3 := Fixture.toy_d3) s * 0.6
              * (scaleLongitude (d3 := Fixture.toy_d3)
                   (longitude (to_airport Fixture.Number Fixture.JFK)) - 0))%Q.
Proof.
  assert (H : simulation (d3 := Fixture.toy_d3) Fixture.airports_csv
                Fixture.flights_csv Fixture.Number = inr Fixture.s0)
    by (vm_compute; reflexivity).
  assert (Hm : toggleMap (run (d3 := Fixture.toy_d3) (App Fixture.s0) [Click])
               = true) by reflexivity.
  assert (Hp : nodes (sim (run (d3 := Fixture.toy_d3) (App Fixture.s0)
                               [Click])) !! 0 = Some Fixture.JFK_node)
    by (vm_compute; reflexivity).
  split; [exact H|]. split; [exact Hm|]. split; [exact Hp|].
  intros s.
  destruct (positional_force_targets_scaled_geography
              (laws := toy_d3_laws) (anchor_laws := toy_positional_laws)
              Fixture.airports_csv Fixture.flights_csv Fixture.Number
              Fixture.s0 [Click] 0 Fixture.JFK_node H Hm Hp)
    as (_ & _ & _ & p' & Hp' & _ & _ & Hx & _).
  exists p'. split; [exact Hp'|].
  apply (Hx eq_refl). reflexivity.
Defined.

(** ** Link resolution *)

Section Resolution.

Implicit Types (ns : list Particle) (ls : list Link) (m : gmap string nat).

Lemma nodeById_fold_Some (l : list (nat * Particle)) m (k : string) (i : nat) :
  fold_left (fun m ip => <[link_id (snd ip) := fst ip]> m) l m !! k = Some i ->
  (exists p, In (i, p) l /\ link_id p = k) \/ m !! k = Some i.
Proof.
  revert m. induction l as [|[j q] l IH]; intros m; simpl; [auto|].
  intros H. apply IH in H. destruct H as [(p & Hin & Hid) | H].
  - left. exists p. auto.
  - destruct (decide (link_id q = k)) as [Heq|Hne].
    + rewrite Heq, lookup_insert_eq in H. injection H as ->.
      left. exists q. auto.
    + rewrite lookup_insert_ne in H by exact Hne. right. exact H.
Qed.

Lemma nodeById_fold_is_Some (l : list (nat * Particle)) m (k : string) :
  (exists ip, In ip l /\ link_id (snd ip) = k) \/ is_Some (m !! k) ->
  is_Some (fold_left (fun m ip => <[link_id (snd ip) := fst ip]> m) l m !! k).
Proof.
  revert m. induction l as [|[j q] l IH]; intros m; simpl.
  - intros [(ip & [] & _) | H]. exact H.
  - intros H. apply IH.
    destruct (decide (link_id q = k)) as [Heq|Hne].
    + right. rewrite Heq, lookup_insert_eq. eauto.
    + destruct H as [(ip & [<- | Hin] & Hid) | H].
      * simpl in Hid. contradiction.
      * left. exists ip. auto.
      * right. rewrite lookup_insert_ne by exact Hne. exact H.
Qed.

Lemma In_imap_pair ns (i : nat) (p : Particle) :
  In (i, p) (imap pair ns) <-> ns !! i = Some p.
Proof.
  rewrite <- list_elem_of_In, elem_of_lookup_imap. split.
  - intros (j & q & Heq & Hq). injection Heq as -> ->. exact Hq.
  - intros H. exists i, p. auto.
Qed.

(** An identifier the table resolves names a node of the store that
    carries it. *)
Lemma nodeById_Some ns (k : string) (i : nat) :
  nodeById ns !! k = Some i ->
  exists p, ns !! i = Some p /\ link_id p = k.
Proof.
  intros H. apply nodeById_fold_Some in H.
  destruct H as [(p & Hin & Hid) | H].
  - exists p. split; [apply In_imap_pair, Hin | exact Hid].
  - rewrite lookup_empty in H. discriminate.
Qed.

Lemma nodeById_is_Some ns (k : string) :
  In k (map link_id ns) -> is_Some (nodeById ns !! k).
Proof.
  intros H. apply in_map_iff in H. destruct H as (p & Hid & Hin).
  apply nodeById_fold_is_Some. left.
  apply list_elem_of_In, list_elem_of_lookup in Hin. destruct Hin as [i Hi].
  exists (i, p). split; [apply In_imap_pair, Hi | exact Hid].
Qed.

Lemma nodeById_None ns (k : string) :
  ~ In k (map link_id ns) -> nodeById ns !! k = None.
Proof.
  intros Hnot. destruct (nodeById ns !! k) as [i|] eqn:E; [|reflexivity].
  exfalso. apply Hnot. apply nodeById_Some in E.
  destruct E as (p & Hp & Hid). apply in_map_iff. exists p.
  split; [exact Hid|]. apply list_elem_of_In, list_elem_of_lookup. eauto.
Qed.

(** A resolved list pairs off with the links it came from: no link is
    dropped, and every end is the node the table gives. *)
Lemma resolve_links_inr m ls (rl : list ResolvedLink) :
  resolve_links m ls = inr rl ->
  Forall2 (fun l r => m !! source l = Some (source_node r)
                      /\ m !! target l = Some (target_node r)
                      /\ resolved_count r = link_count l) ls rl.
Proof.
  revert rl. induction ls as [|l ls IH]; intros rl; simpl.
  - intros H. injection H as <-. constructor.
  - unfold find, bind, ret.
    destruct (m !! source l) as [i|] eqn:Es; [|discriminate].
    destruct (m !! target l) as [j|] eqn:Et; [|discriminate].
    destruct (resolve_links m ls) as [e|rest]; [discriminate|].
    intros H. injection H as <-. constructor; [|apply IH; reflexivity].
    simpl. auto.
Qed.

Lemma resolve_links_ok m ls :
  (forall l, In l ls -> is_Some (m !! source l) /\ is_Some (m !! target l)) ->
  exists rl, resolve_links m ls = inr rl.
Proof.
  induction ls as [|l ls IH]; intros H; simpl.
  - eexists. reflexivity.
  - destruct (H l (or_introl eq_refl)) as [[i Hi] [j Hj]].
    destruct IH as [rest Hrest]; [intros l' Hl'; apply H; right; exact Hl'|].
    unfold find, bind, ret. rewrite Hi, Hj, Hrest. eexists. reflexivity.
Qed.

Lemma resolve_links_fail m ls :
  (exists l, In l ls /\ (m !! source l = None \/ m !! target l = None)) ->
  exists nodeId, resolve_links m ls = inl (MissingNode nodeId)
                 /\ m !! nodeId = None
                 /\ exists l, In l ls /\ (source l = nodeId \/ target l = nodeId).
Proof.
  induction ls as [|l ls IH]; intros (l0 & Hin & Hbad); simpl; [destruct Hin|].
  unfold find, bind, ret.
  destruct (m !! source l) as [i|] eqn:Es.
  2:{ exists (source l). split; [reflexivity|]. split; [exact Es|].
      exists l. split; [left; reflexivity | left; reflexivity]. }
  destruct (m !! target l) as [j|] eqn:Et.
  2:{ exists (target l). split; [reflexivity|]. split; [exact Et|].
      exists l. split; [left; reflexivity | right; reflexivity]. }
  destruct Hin as [<- | Hin].
  { destruct Hbad as [Hbad | Hbad]; congruence. }
  destruct IH as (nodeId & Hres & Hnone & l1 & Hin1 & Hend); [eauto|].
  exists nodeId. rewrite Hres. split; [reflexivity|]. split; [exact Hnone|].
  exists l1. split; [right; exact Hin1 | exact Hend].
Qed.

End Resolution.

Section Construction.

Context {d3 : D3}.

Lemma initializeNodes_ids (ds : list AirportWithTotalFlights) :
  map link_id (initializeNodes ds) = map (fun n => iata (airport n)) ds.
Proof.
  unfold initializeNodes. rewrite !map_fmap, fmap_imap, <- imap_const.
  apply imap_ext. intros i n _. reflexivity.
Qed.

Variable _airports : list RawAirport.
Variable _flights : list RawFlight.
Variable Number : string -> float.

Lemma simulation_inl (nodeId : string) :
  forceLink_initialize
    (initializeNodes (airportsWithTotal _airports _flights Number))
    (links _flights Number) = inl (MissingNode nodeId) ->
  simulation _airports _flights Number = inl (MissingNode nodeId).
Proof.
  intros H. unfold simulation. cbn [nodes forceSimulation].
  rewrite H. reflexivity.
Qed.

Lemma simulation_inr (rl : list ResolvedLink) :
  forceLink_initialize
    (initializeNodes (airportsWithTotal _airports _flights Number))
    (links _flights Number) = inr rl ->
  exists s0, simulation _airports _flights Number = inr s0
             /\ resolved s0 = rl
             /\ nodes s0
                = initializeNodes (airportsWithTotal _airports _flights Number).
Proof.
  intros H. unfold simulation. cbn [nodes forceSimulation].
  rewrite H. eexists. split; [reflexivity|]. split; reflexivity.
Qed.

Lemma dangling_link_fails :
  (exists l, In l (links _flights Number)
             /\ (~ In (source l) (simulated_ids _airports _flights Number)
                 \/ ~ In (target l) (simulated_ids _airports _flights Number))) ->
  exists nodeId,
    simulation _airports _flights Number = inl (MissingNode nodeId)
    /\ ~ In nodeId (simulated_ids _airports _flights Number)
    /\ exists l, In l (links _flights Number)
                 /\ (source l = nodeId \/ target l = nodeId).
Proof.
  intros (l & Hin & Hbad).
  set (ns := initializeNodes (airportsWithTotal _airports _flights Number)).
  assert (Hids : map link_id ns = (simulated_ids _airports _flights Number))
    by apply initializeNodes_ids.
  destruct (resolve_links_fail (nodeById ns) (links _flights Number))
    as (nodeId & Hres & Hnone & Hl).
  { exists l. split; [exact Hin|].
    destruct Hbad as [Hbad | Hbad]; [left | right];
      apply nodeById_None; rewrite Hids; exact Hbad. }
  exists nodeId. split; [apply simulation_inl; exact Hres|].
  split; [|exact Hl].
  intros Hid. rewrite <- Hids in Hid. apply nodeById_is_Some in Hid.
  rewrite Hnone in Hid. destruct Hid as [? Hid]. discriminate Hid.
Qed.

Lemma built_links_resolved (s0 : Simulation) :
  simulation _airports _flights Number = inr s0 ->
  Forall2 (fun l r =>
             exists p q,
               nodes s0 !! source_node r = Some p /\ link_id p = source l
               /\ nodes s0 !! target_node r = Some q /\ link_id q = target l)
          (links _flights Number) (resolved s0).
Proof.
  intros H. apply simulation_built in H.
  destruct H as (Hn & _ & _ & _ & _ & Hres).
  apply resolve_links_inr in Hres. rewrite Hn.
  eapply Forall2_impl; [exact Hres|]. simpl.
  intros l r (Hs & Ht & _).
  apply nodeById_Some in Hs. apply nodeById_Some in Ht.
  destruct Hs as (p & Hp & Hpid). destruct Ht as (q & Hq & Hqid).
  exists p, q. auto.
Qed.

End Construction.

(** C8.  If some link names, at either end, an identifier that no
    simulated node carries, constructing the simulation fails with
    [MissingNodeError] for such an identifier; and whenever construction
    succeeds every link has been resolved, none dropped. *)
Theorem missing_node_is_fatal
  {d3 : D3} (_airports : list RawAirport) (_flights : list RawFlight)
  (Number : string -> float) :
  let ids := simulated_ids _airports _flights Number in
  ((exists l, In l (links _flights Number)
              /\ (~ In (source l) ids \/ ~ In (target l) ids)) ->
   exists nodeId,
     simulation _airports _flights Number = inl (MissingNode nodeId)
     /\ ~ In nodeId ids
     /\ exists l, In l (links _flights Number)
                  /\ (source l = nodeId \/ target l = nodeId))
  /\ (forall s0, simulation _airports _flights Number = inr s0 ->
        length (resolved s0) = length (links _flights Number)
        /\ forall l, In l (links _flights Number) ->
                     In (source l) ids /\ In (target l) ids).
Proof.
  intros ids. split.
  - apply dangling_link_fails.
  - intros s0 H. pose proof (built_links_resolved _ _ _ s0 H) as Hall.
    split; [symmetry; apply (Forall2_length _ _ _ Hall)|].
    intros l Hl.
    destruct (in_dec String.string_dec (source l) ids) as [Hs|Hs];
      [destruct (in_dec String.string_dec (target l) ids) as [Ht|Ht]|].
    + auto.
    + destruct (dangling_link_fails _airports _flights Number) as (n & Hn & _);
        [exists l; auto | congruence].
    + destruct (dangling_link_fails _airports _flights Number) as (n & Hn & _);
        [exists l; auto | congruence].
Qed.

(** On the fixture with a flight to an airport the table lacks. *)
Lemma missing_node_is_fatal_witness :
  (exists l, In l (links Fixture.dangling_csv Fixture.Number)
             /\ ~ In (target l)
                   (simulated_ids Fixture.airports_csv Fixture.dangling_csv
                                  Fixture.Number))
  /\ (exists nodeId,
        simulation (d3 := Fixture.toy_d3) Fixture.airports_csv
                   Fixture.dangling_csv Fixture.Number
        = inl (MissingNode nodeId))
  /\ simulation (d3 := Fixture.toy_d3) Fixture.airports_csv
                Fixture.dangling_csv Fixture.Number
     = inl (MissingNode "XXX").
Proof.
  assert (Hbad : exists l, In l (links Fixture.dangling_csv Fixture.Number)
             /\ ~ In (target l)
                   (simulated_ids Fixture.airports_csv Fixture.dangling_csv
                                  Fixture.Number)).
  { exists {| source := "JFK"; target := "XXX"; link_count := 7%float |}.
    split; [vm_compute; tauto|].
    vm_compute. intros [H|[H|[]]]; discriminate H. }
  split; [exact Hbad|]. split.
  - destruct (proj1 (missing_node_is_fatal (d3 := Fixture.toy_d3)
                       Fixture.airports_csv Fixture.dangling_csv
                       Fixture.Number))
      as (nodeId & Hfail & _).
    + destruct Hbad as (l & Hl & Ht). exists l. auto.
    + exists nodeId. exact Hfail.
  - vm_compute. reflexivity.
Defined.

(** C3.  The code breaks the property on an identifier that is a
    property name object literals inherit.  On the fixture whose airport
    is called [constructor], every flight's ends are in the airports
    table and every count is positive, and yet the total of that airport
    is a string, not a number, line 33 drops the airport, and the
    construction fails on the link that names it. *)
Theorem inherited_identifier_breaks_links :
  (forall f, In f Fixture.inheriting_flights_csv ->
             In (raw_origin f) (map raw_iata Fixture.inheriting_airports_csv)
             /\ In (raw_destination f)
                   (map raw_iata Fixture.inheriting_airports_csv))
  /\ (forall f, In f Fixture.inheriting_flights_csv ->
                (0 <? Fixture.Number (raw_count f))%float = true)
  /\ total (with_total Fixture.inheriting_flights_csv Fixture.Number
                       (to_airport Fixture.Number Fixture.CTR)) = Js.Text
  /\ simulated_ids Fixture.inheriting_airports_csv
                   Fixture.inheriting_flights_csv Fixture.Number = ["LAX"]
  /\ simulation (d3 := Fixture.toy_d3) Fixture.inheriting_airports_csv
                Fixture.inheriting_flights_csv Fixture.Number
     = inl (MissingNode "constructor").
Proof.
  split; [|split; [|split; [|split]]].
  - intros f [<- | []]. simpl. tauto.
  - intros f [<- | []]. vm_compute. reflexivity.
  - vm_compute. reflexivity.
  - vm_compute. reflexivity.
  - vm_compute. reflexivity.
Qed.

(** * Further properties of the code *)

(** ** The dataset pipeline, continued *)

Lemma set_spread_NoDup (xs seen : list string) : NoDup (Js.set_spread seen xs).
Proof.
  revert seen. induction xs as [|h xs IH]; intros seen; simpl.
  - constructor.
  - destruct (existsb (String.eqb h) seen); [apply IH|].
    constructor; [|apply IH].
    rewrite list_elem_of_In, set_spread_In. simpl. tauto.
Qed.

(** The states list of line 36 names every state of the airports table
    exactly once, and nothing else. *)
Theorem states_each_once
  (_airports : list RawAirport) (_flights : list RawFlight)
  (Number : string -> float) :
  NoDup (states _airports _flights Number)
  /\ forall st, In st (states _airports _flights Number)
                <-> exists a, In a _airports /\ raw_state a = st.
Proof.
  split; [apply set_spread_NoDup|].
  intros st. unfold states. rewrite set_spread_In, airports_unfiltered, map_map.
  rewrite in_map_iff. simpl. split.
  - intros [(a & Ha & Hin) _]. exists a. auto.
  - intros (a & Hin & Ha). split; [exists a; auto | tauto].
Qed.








(** The simulated airports are rows of the table, in the table's order:
    line 31-33 drops rows but neither reorders nor repeats them. *)
Theorem simulated_keep_table_order
  (_airports : list RawAirport) (_flights : list RawFlight)
  (Number : string -> float) :
  map airport (airportsWithTotal _airports _flights Number)
    `sublist_of` map (to_airport Number) _airports
  /\ length (airportsWithTotal _airports _flights Number) <= length _airports.
Proof.
  assert (Hsub : map airport (airportsWithTotal _airports _flights Number)
                   `sublist_of` map (to_airport Number) _airports).
  { unfold airportsWithTotal. rewrite airports_unfiltered.
    induction _airports as [|a l IH]; simpl; [constructor|].
    destruct (Js.gt_zero _); simpl.
    - apply sublist_skip, IH.
    - apply sublist_cons, IH. }
  split; [exact Hsub|].
  apply sublist_length in Hsub. rewrite !length_map in Hsub. exact Hsub.
Qed.

(** ** Construction, continued *)

Section ConstructionFacts.

Context {d3 : D3}.

Variable _airports : list RawAirport.
Variable _flights : list RawFlight.
Variable Number : string -> float.

Lemma simulated_ids_iff (k : string) :
  In k (simulated_ids _airports _flights Number)
  <-> In k (map raw_iata _airports)
      /\ Js.inherited k = false
      /\ (0 <? double_flow (flights _flights Number) k)%float = true.
Proof.
  unfold simulated_ids. rewrite !in_map_iff. split.
  - intros (n & Hk & Hn). apply airportsWithTotal_In in Hn.
    destruct Hn as (a & Ha & -> & Hpos). cbn [airport with_total] in Hk.
    rewrite total_test in Hpos. apply andb_true_iff in Hpos.
    destruct Hpos as [Hinh Hpos]. apply negb_true_iff in Hinh.
    rewrite Hk in Hinh, Hpos. cbn [iata to_airport] in Hk.
    split; [exists a; auto|]. split; assumption.
  - intros [(a & Hk & Ha) [Hinh Hpos]].
    exists (with_total _flights Number (to_airport Number a)).
    split; [exact Hk|]. apply airportsWithTotal_In. exists a.
    split; [exact Ha|]. split; [reflexivity|].
    rewrite total_test. cbn [iata to_airport]. rewrite Hk, Hinh, Hpos.
    reflexivity.
Qed.

Lemma simulation_succeeds_iff_links :
  (exists s0, simulation _airports _flights Number = inr s0)
  <-> forall l, In l (links _flights Number) ->
                In (source l) (simulated_ids _airports _flights Number)
                /\ In (target l) (simulated_ids _airports _flights Number).
Proof.
  split.
  - intros [s0 Hs0] l Hl.
    destruct (in_dec String.string_dec (source l)
                (simulated_ids _airports _flights Number)) as [Hs|Hs];
      [destruct (in_dec String.string_dec (target l)
                   (simulated_ids _airports _flights Number)) as [Ht|Ht]|].
    + auto.
    + destruct (dangling_link_fails _airports _flights Number) as (n & Hn & _);
        [exists l; auto | congruence].
    + destruct (dangling_link_fails _airports _flights Number) as (n & Hn & _);
        [exists l; auto | congruence].
  - intros Hends.
    destruct (resolve_links_ok
                (nodeById (initializeNodes
                             (airportsWithTotal _airports _flights Number)))
                (links _flights Number)) as [rl Hrl].
    { intros l Hl. destruct (Hends l Hl) as [Hs Ht].
      unfold simulated_ids in Hs, Ht. rewrite <- initializeNodes_ids in Hs, Ht.
      split; apply nodeById_is_Some; assumption. }
    destruct (simulation_inr _airports _flights Number rl Hrl) as (s0 & Hs0 & _).
    exists s0. exact Hs0.
Qed.

End ConstructionFacts.

(** The construction of lines 161-168 succeeds exactly when both ends of
    every flight are airports of the table whose identifier is not a
    property name that object literals inherit and whose total, added up
    in doubles, is strictly positive.  So a flight to an unknown airport,
    to one called like an inherited property, or to one whose counts add
    up to nothing stops the module from loading. *)
Theorem construction_succeeds_iff
  {d3 : D3} (_airports : list RawAirport) (_flights : list RawFlight)
  (Number : string -> float) :
  (exists s0, simulation _airports _flights Number = inr s0)
  <-> forall f, In f _flights ->
        (In (raw_origin f) (map raw_iata _airports)
         /\ Js.inherited (raw_origin f) = false
         /\ (0 <? double_flow (flights _flights Number)
                              (raw_origin f))%float = true)
        /\ (In (raw_destination f) (map raw_iata _airports)
            /\ Js.inherited (raw_destination f) = false
            /\ (0 <? double_flow (flights _flights Number)
                                 (raw_destination f))%float = true).
Proof.
  rewrite simulation_succeeds_iff_links. split.
  - intros H f Hf. rewrite <- !simulated_ids_iff.
    apply (H {| source := raw_origin f; target := raw_destination f;
                link_count := Number (raw_count f) |}).
    unfold links, flights. rewrite map_map.
    apply in_map_iff. exists f. auto.
  - intros H l Hl. unfold links in Hl. apply in_map_iff in Hl.
    destruct Hl as (g & <- & Hg). unfold flights in Hg.
    apply in_map_iff in Hg. destruct Hg as (f & <- & Hf).
    simpl. rewrite !simulated_ids_iff. apply H, Hf.
Qed.

(** ** Drag handlers, continued *)

Lemma dragstarted_nodes (e : DragEvent) (s : Simulation) :
  nodes (dragstarted e s)
  = alter (fun p => set_pin (Some (x p)) (Some (y p)) p) (subject e) (nodes s).
Proof.
  unfold dragstarted, update_subject.
  destruct (Nat.eqb (active e) 0); reflexivity.
Qed.

Lemma dragged_nodes (e : DragEvent) (s : Simulation) :
  nodes (dragged e s)
  = alter (set_pin (Some (event_x e)) (Some (event_y e))) (subject e) (nodes s).
Proof. reflexivity. Qed.

Lemma dragended_nodes (e : DragEvent) (s : Simulation) :
  nodes (dragended e s) = alter (set_pin None None) (subject e) (nodes s).
Proof.
  unfold dragended, update_subject.
  destruct (Nat.eqb (active e) 0); reflexivity.
Qed.

(** Every drag handler rewrites the store by altering its subject with a
    function that only replaces the pin. *)
Lemma drag_event_nodes {d3 : D3} (a : AppState) (ev : Event) (i : nat) :
  drag_subject ev = Some i ->
  exists f, nodes (sim (handle a ev)) = alter f i (nodes (sim a))
            /\ forall p, exists px py, f p = set_pin px py p.
Proof.
  destruct ev as [|e|e|e|]; cbn [drag_subject handle sim]; intros H;
    try discriminate; injection H as <-.
  - rewrite dragstarted_nodes. eexists. split; [reflexivity|].
    intros p. eauto.
  - rewrite dragged_nodes. eexists. split; [reflexivity|].
    intros p. eauto.
  - rewrite dragended_nodes. eexists. split; [reflexivity|].
    intros p. eauto.
Qed.

(** A drag event changes nothing but the pin of its subject: the mode,
    the registry, the resolved links and the number of nodes stay, every
    other node is untouched, and the subject keeps its datum, position
    and velocity. *)
Theorem drag_changes_only_the_pin
  {d3 : D3} (a : AppState) (ev : Event) (i : nat) :
  drag_subject ev = Some i ->
  toggleMap (handle a ev) = toggleMap a
  /\ forces (sim (handle a ev)) = forces (sim a)
  /\ resolved (sim (handle a ev)) = resolved (sim a)
  /\ alpha (sim (handle a ev)) = alpha (sim a)
  /\ length (nodes (sim (handle a ev))) = length (nodes (sim a))
  /\ (forall j, j <> i ->
        nodes (sim (handle a ev)) !! j = nodes (sim a) !! j)
  /\ (forall p', nodes (sim (handle a ev)) !! i = Some p' ->
        exists p, nodes (sim a) !! i = Some p
                  /\ datum p' = datum p
                  /\ x p' = x p /\ y p' = y p
                  /\ vx p' = vx p /\ vy p' = vy p).
Proof.
  intros Hev.
  destruct (drag_event_nodes a ev i Hev) as (f & Hn & Hf).
  assert (Hrest : toggleMap (handle a ev) = toggleMap a
                  /\ forces (sim (handle a ev)) = forces (sim a)
                  /\ resolved (sim (handle a ev)) = resolved (sim a)
                  /\ alpha (sim (handle a ev)) = alpha (sim a)).
  { destruct ev as [|e|e|e|]; try discriminate; cbn [handle sim toggleMap].
    - unfold dragstarted. destruct (Nat.eqb (active e) 0); auto.
    - auto.
    - unfold dragended. destruct (Nat.eqb (active e) 0); auto. }
  destruct Hrest as (H1 & H2 & H3 & H4).
  split; [exact H1|]. split; [exact H2|]. split; [exact H3|].
  split; [exact H4|]. rewrite Hn. split; [apply length_alter|]. split.
  - intros j Hj. apply list_lookup_alter_ne. congruence.
  - intros p'. rewrite list_lookup_alter_eq.
    destruct (nodes (sim a) !! i) as [p|]; simpl; [|discriminate].
    intros H. injection H as <-. exists p. split; [reflexivity|].
    destruct (Hf p) as (px & py & ->). repeat split; reflexivity.
Qed.

Lemma drag_changes_only_the_pin_witness :
  drag_subject (DragMove Fixture.drag_JFK) = Some 0
  /\ nodes (sim (handle (d3 := Fixture.toy_d3) (App Fixture.s0)
                        (DragMove Fixture.drag_JFK))) !! 1
     = nodes (sim (App Fixture.s0)) !! 1.
Proof.
  split; [reflexivity|].
  destruct (drag_changes_only_the_pin (d3 := Fixture.toy_d3)
              (App Fixture.s0) (DragMove Fixture.drag_JFK) 0 eq_refl)
    as (_ & _ & _ & _ & _ & Hother & _).
  apply Hother. discriminate.
Defined.

(** A whole gesture on one node, with no tick in between, leaves the
    store as it was except that the node ends without a pin; if the node
    had no pin before, the store is exactly as it was. *)
Theorem gesture_restores_store
  (e0 e1 e2 : DragEvent) (s : Simulation) :
  subject e1 = subject e0 -> subject e2 = subject e0 ->
  nodes (dragended e2 (dragged e1 (dragstarted e0 s)))
  = alter (set_pin None None) (subject e0) (nodes s)
  /\ ((forall p, nodes s !! subject e0 = Some p -> pin p = (None, None)) ->
      nodes (dragended e2 (dragged e1 (dragstarted e0 s))) = nodes s).
Proof.
  intros H1 H2.
  assert (Hn : nodes (dragended e2 (dragged e1 (dragstarted e0 s)))
               = alter (set_pin None None) (subject e0) (nodes s)).
  { rewrite dragended_nodes, dragged_nodes, dragstarted_nodes, H1, H2.
    rewrite !list_alter_alter_eq. apply list_alter_ext; reflexivity. }
  split; [exact Hn|].
  intros Hfree. rewrite Hn. apply list_eq. intros j.
  destruct (decide (j = subject e0)) as [->|Hne].
  - rewrite list_lookup_alter_eq.
    destruct (nodes s !! subject e0) as [p|] eqn:E; [|reflexivity].
    simpl. f_equal. specialize (Hfree p eq_refl).
    unfold pin in Hfree. injection Hfree as Hx Hy.
    destruct p. simpl in *. subst. reflexivity.
  - apply list_lookup_alter_ne. congruence.
Qed.

Lemma gesture_restores_store_witness :
  subject Fixture.drag_JFK = subject Fixture.drag_JFK
  /\ nodes (dragended Fixture.drag_JFK
              (dragged Fixture.drag_JFK
                 (dragstarted Fixture.drag_JFK Fixture.s0)))
     = nodes Fixture.s0.
Proof.
  split; [reflexivity|].
  apply (gesture_restores_store Fixture.drag_JFK Fixture.drag_JFK
           Fixture.drag_JFK Fixture.s0 eq_refl eq_refl).
  intros p Hp. vm_compute in Hp. injection Hp as <-. reflexivity.
Defined.

(** ** The mode effect, continued *)

Lemma mode_effect_nodes (t : bool) (s : Simulation) :
  nodes (mode_effect t s) = nodes s.
Proof. destruct t; reflexivity. Qed.

Lemma mode_effect_resolved (t : bool) (s : Simulation) :
  resolved (mode_effect t s) = resolved s.
Proof. destruct t; reflexivity. Qed.

(** Whatever was registered before, the mode effect leaves the particles,
    alpha and the resolved links alone, decides the five names the
    program uses, and touches no force registered under another name. *)
Theorem mode_effect_touches_only_its_forces (t : bool) (s : Simulation) :
  nodes (mode_effect t s) = nodes s
  /\ alpha (mode_effect t s) = alpha s
  /\ resolved (mode_effect t s) = resolved s
  /\ map_get "link" (forces (mode_effect t s))
     = (if t then None else Some forceLink)
  /\ map_get "charge" (forces (mode_effect t s))
     = (if t then None else Some forceNode)
  /\ map_get "center" (forces (mode_effect t s))
     = (if t then None else Some forceCenter)
  /\ map_get "x" (forces (mode_effect t s)) = (if t then Some forceX else None)
  /\ map_get "y" (forces (mode_effect t s)) = (if t then Some forceY else None)
  /\ forall k, k <> "link" -> k <> "charge" -> k <> "center" ->
               k <> "x" -> k <> "y" ->
               map_get k (forces (mode_effect t s)) = map_get k (forces s).
Proof.
  split; [apply mode_effect_nodes|].
  split; [destruct t; reflexivity|].
  split; [apply mode_effect_resolved|].
  unfold mode_effect, force, restart.
  destruct t; cbn [forces set_forces set_alphaTarget set_running];
    (repeat (split; [registry|]));
    intros k H1 H2 H3 H4 H5;
    repeat first [ rewrite map_get_set_ne by assumption
                 | rewrite map_get_delete_ne by assumption ];
    reflexivity.
Qed.

Section Clicks.

Context {d3 : D3}.

Lemma handle_toggleMap (a : AppState) (ev : Event) :
  toggleMap (handle a ev)
  = match ev with Click => negb (toggleMap a) | _ => toggleMap a end.
Proof.
  destruct ev; simpl; try reflexivity.
  destruct (running (sim a)); reflexivity.
Qed.

Lemma run_toggleMap (evs : list Event) (a : AppState) :
  toggleMap (run a evs) = xorb (toggleMap a) (Nat.odd (clicks evs)).
Proof.
  revert a. induction evs as [|ev evs IH]; intros a.
  - simpl. destruct (toggleMap a); reflexivity.
  - change (run a (ev :: evs)) with (run (handle a ev) evs).
    rewrite IH, handle_toggleMap.
    destruct ev; try reflexivity.
    cbn [clicks]. rewrite Nat.odd_succ, <- Nat.negb_odd.
    destruct (toggleMap a), (Nat.odd (clicks evs)); reflexivity.
Qed.

End Clicks.

(** After any sequence of events, the layout shown depends only on the
    parity of the clicks: map mode and the positional forces after an odd
    number, network mode and its three forces after an even number.  In
    particular two clicks bring the first layout back. *)
Theorem layout_follows_click_parity
  {d3 : D3} (_airports : list RawAirport) (_flights : list RawFlight)
  (Number : string -> float) (s0 : Simulation) (evs : list Event) :
  simulation _airports _flights Number = inr s0 ->
  toggleMap (run (App s0) evs) = Nat.odd (clicks evs)
  /\ forces (sim (run (App s0) evs))
     = (if Nat.odd (clicks evs) then [("x", forceX); ("y", forceY)]
        else [("link", forceLink); ("charge", forceNode);
              ("center", forceCenter)]).
Proof.
  intros H.
  assert (Ht : toggleMap (run (App s0) evs) = Nat.odd (clicks evs)).
  { rewrite run_toggleMap. simpl. reflexivity. }
  split; [exact Ht|].
  destruct (run_registry_inv evs (App s0) (App_registry_inv _ _ _ s0 H))
    as [Hf _].
  rewrite Hf, Ht. reflexivity.
Qed.

Lemma layout_follows_click_parity_witness :
  simulation (d3 := Fixture.toy_d3) Fixture.airports_csv Fixture.flights_csv
             Fixture.Number = inr Fixture.s0
  /\ forces (sim (run (d3 := Fixture.toy_d3) (App Fixture.s0)
                      [Click; Frame; Click; DragStart Fixture.drag_JFK; Click]))
     = [("x", forceX); ("y", forceY)].
Proof.
  assert (H : simulation (d3 := Fixture.toy_d3) Fixture.airports_csv
                Fixture.flights_csv Fixture.Number = inr Fixture.s0)
    by (vm_compute; reflexivity).
  split; [exact H|].
  destruct (layout_follows_click_parity (d3 := Fixture.toy_d3)
              Fixture.airports_csv Fixture.flights_csv Fixture.Number
              Fixture.s0
              [Click; Frame; Click; DragStart Fixture.drag_JFK; Click] H)
    as [_ Hf].
  exact Hf.
Defined.

(** ** The store across events *)

Section Store.

Context {d3 : D3} {laws : D3Laws d3}.

Lemma tick_pins (s : Simulation) :
  map pin (nodes (tick s)) = map pin (nodes s).
Proof.
  rewrite tick_nodes, map_map, <- (accumulate_pins s (cooled s)).
  apply map_ext. apply integrate_pin.
Qed.

Lemma step_nodes (s : Simulation) : nodes (step s) = nodes (tick s).
Proof. unfold step. destruct (Qltb _ _); reflexivity. Qed.

Lemma step_resolved (s : Simulation) : resolved (step s) = resolved s.
Proof. unfold step. destruct (Qltb _ _); reflexivity. Qed.

Lemma handle_pins_length (a : AppState) (ev : Event) :
  length (nodes (sim (handle a ev))) = length (nodes (sim a))
  /\ resolved (sim (handle a ev)) = resolved (sim a).
Proof.
  destruct ev as [|e|e|e|]; cbn [handle sim].
  - rewrite mode_effect_nodes, mode_effect_resolved. auto.
  - rewrite dragstarted_nodes, length_alter. split; [reflexivity|].
    unfold dragstarted. destruct (Nat.eqb (active e) 0); reflexivity.
  - rewrite dragged_nodes, length_alter. auto.
  - rewrite dragended_nodes, length_alter. split; [reflexivity|].
    unfold dragended. destruct (Nat.eqb (active e) 0); reflexivity.
  - destruct (running (sim a)); cbn [sim]; [|auto].
    rewrite step_nodes, step_resolved. split; [|reflexivity].
    pose proof (f_equal (@length _) (tick_pins (sim a))) as H.
    rewrite !length_map in H. exact H.
Qed.

Lemma run_pins_length (evs : list Event) (a : AppState) :
  length (nodes (sim (run a evs))) = length (nodes (sim a))
  /\ resolved (sim (run a evs)) = resolved (sim a).
Proof.
  revert a. induction evs as [|ev evs IH]; intros a; [auto|].
  change (run a (ev :: evs)) with (run (handle a ev) evs).
  destruct (IH (handle a ev)) as [H1 H2].
  destruct (handle_pins_length a ev) as [H3 H4].
  split; congruence.
Qed.

(** One event that is not a drag event on node [i] leaves a node that
    sits on its pin sitting on its pin. *)
Lemma handle_keeps_pinned (a : AppState) (ev : Event) (i : nat)
  (p : Particle) (px py : Q) :
  spares i ev = true ->
  nodes (sim a) !! i = Some p -> pin p = (Some px, Some py) ->
  x p = px -> y p = py ->
  exists p', nodes (sim (handle a ev)) !! i = Some p'
             /\ pin p' = (Some px, Some py) /\ x p' = px /\ y p' = py.
Proof.
  intros Hsp Hp Hpin Hx Hy.
  destruct (drag_subject ev) as [j|] eqn:Hev.
  - unfold spares in Hsp. rewrite Hev in Hsp.
    apply negb_true_iff, Nat.eqb_neq in Hsp.
    destruct (drag_event_nodes a ev j Hev) as (f & Hn & _).
    exists p. rewrite Hn, list_lookup_alter_ne by exact Hsp. auto.
  - destruct ev as [|e|e|e|]; try discriminate; cbn [handle sim].
    + exists p. rewrite mode_effect_nodes. auto.
    + destruct (running (sim a)); cbn [sim]; [|exists p; auto].
      rewrite step_nodes.
      destruct (tick_pinned (sim a) i p Hp) as (p' & Hp' & Hpin' & Hx' & Hy').
      pose proof Hpin as Hpin0. unfold pin in Hpin0.
      injection Hpin0 as Hfx Hfy.
      exists p'. split; [exact Hp'|]. split; [congruence|]. auto.
Qed.

Lemma initializeNodes_unpinned (ds : list AirportWithTotalFlights) :
  Forall (fun p => pin p = (None, None)) (initializeNodes ds).
Proof.
  apply Forall_lookup. intros i p. unfold initializeNodes.
  rewrite list_lookup_imap. destruct (ds !! i); simpl; [|discriminate].
  intros H. injection H as <-. reflexivity.
Qed.

Lemma handle_keeps_unpinned (a : AppState) (ev : Event) :
  pins_subject ev = false ->
  Forall (fun p => pin p = (None, None)) (nodes (sim a)) ->
  Forall (fun p => pin p = (None, None)) (nodes (sim (handle a ev))).
Proof.
  intros Hev Hall.
  destruct ev as [|e|e|e|]; try discriminate; cbn [handle sim].
  - rewrite mode_effect_nodes. exact Hall.
  - rewrite dragended_nodes. apply Forall_alter; [exact Hall|].
    intros p _ _. reflexivity.
  - destruct (running (sim a)); cbn [sim]; [|exact Hall].
    rewrite step_nodes.
    change (Forall ((fun q => q = (None, None)) ∘ pin) (nodes (tick (sim a)))).
    rewrite <- Forall_fmap, <- map_fmap, tick_pins, map_fmap, Forall_fmap.
    exact Hall.
Qed.

End Store.

Lemma Forall2_map_diag {A B} (P : A -> B -> Prop) (f : A -> B) (l : list A) :
  Forall (fun a => P a (f a)) l -> Forall2 P l (map f l).
Proof. induction 1; simpl; constructor; auto. Qed.

Lemma Forall2_right {A B} (P : A -> B -> Prop) (Q' : B -> Prop)
  (l : list A) (k : list B) :
  Forall2 P l k -> (forall a b, P a b -> Q' b) -> Forall Q' k.
Proof. induction 1; intros H'; constructor; eauto. Qed.

(** In every state the mounted component can reach, [ticked] finds a node
    behind both ends of every link: it draws one line per flight and one
    circle per simulated airport, and each line runs from the centre of
    its source's circle to the centre of its target's circle. *)
Theorem ticked_draws_every_link
  {d3 : D3} {laws : D3Laws d3}
  (_airports : list RawAirport) (_flights : list RawFlight)
  (Number : string -> float) (s0 : Simulation) (evs : list Event) :
  simulation _airports _flights Number = inr s0 ->
  let s := sim (run (App s0) evs) in
  length (fst (ticked s)) = length _flights
  /\ length (snd (ticked s))
     = length (airportsWithTotal _airports _flights Number)
  /\ Forall2 (fun d line =>
                exists l, line = Some l
                  /\ snd (ticked s) !! source_node d = Some (x1 l, y1 l)
                  /\ snd (ticked s) !! target_node d = Some (x2 l, y2 l))
             (resolved s) (fst (ticked s)).
Proof.
  intros H s.
  pose proof (built_links_resolved _ _ _ s0 H) as Hall.
  destruct (simulation_built _ _ _ s0 H) as (Hn0 & _).
  destruct (run_pins_length evs (App s0)) as [Hlen Hres].
  fold s in Hlen, Hres. cbn [App sim] in Hlen, Hres.
  rewrite mode_effect_nodes in Hlen. rewrite mode_effect_resolved in Hres.
  unfold ticked. cbn [fst snd]. rewrite !length_map, Hres.
  split.
  { rewrite <- (Forall2_length _ _ _ Hall). unfold links, flights.
    rewrite !length_map. reflexivity. }
  split.
  { rewrite Hlen, Hn0. unfold initializeNodes. apply length_imap. }
  apply Forall2_map_diag.
  apply (Forall2_right _ _ _ _ Hall). intros l d (p0 & q0 & Hp0 & _ & Hq0 & _).
  assert (Hp : is_Some (nodes s !! source_node d)).
  { apply lookup_lt_is_Some. rewrite Hlen. apply lookup_lt_is_Some. eauto. }
  assert (Hq : is_Some (nodes s !! target_node d)).
  { apply lookup_lt_is_Some. rewrite Hlen. apply lookup_lt_is_Some. eauto. }
  destruct Hp as [p Hp]. destruct Hq as [q Hq]. rewrite Hp, Hq.
  eexists. split; [reflexivity|].
  rewrite !map_fmap, !list_lookup_fmap, Hp, Hq. split; reflexivity.
Qed.

Lemma ticked_draws_every_link_witness :
  simulation (d3 := Fixture.toy_d3) Fixture.airports_csv Fixture.flights_csv
             Fixture.Number = inr Fixture.s0
  /\ let s := sim (run (d3 := Fixture.toy_d3) (App Fixture.s0)
                       [Frame; Click; Frame]) in
     length (fst (ticked s)) = 1 /\ length (snd (ticked s)) = 2.
Proof.
  assert (H : simulation (d3 := Fixture.toy_d3) Fixture.airports_csv
                Fixture.flights_csv Fixture.Number = inr Fixture.s0)
    by (vm_compute; reflexivity).
  split; [exact H|].
  destruct (ticked_draws_every_link (laws := toy_d3_laws)
              Fixture.airports_csv Fixture.flights_csv Fixture.Number
              Fixture.s0 [Frame; Click; Frame] H) as (H1 & H2 & _).
  split; [exact H1 | exact H2].
Defined.

(** A node that sits on its pin stays pinned there through any sequence
    of clicks, timer frames and drag events on other nodes: switching the
    layout or dragging a second node does not move it. *)
Theorem pinned_node_survives_other_events
  {d3 : D3} {laws : D3Laws d3} (evs : list Event) (a : AppState) (i : nat)
  (p : Particle) (px py : Q) :
  Forall (fun ev => spares i ev = true) evs ->
  nodes (sim a) !! i = Some p -> pin p = (Some px, Some py) ->
  x p = px -> y p = py ->
  exists p', nodes (sim (run a evs)) !! i = Some p'
             /\ pin p' = (Some px, Some py) /\ x p' = px /\ y p' = py.
Proof.
  revert a p. induction evs as [|ev evs IH]; intros a p Hsp Hp Hpin Hx Hy.
  - exists p. auto.
  - apply Forall_cons in Hsp. destruct Hsp as [Hev Hrest].
    destruct (handle_keeps_pinned a ev i p px py Hev Hp Hpin Hx Hy)
      as (p' & Hp' & Hpin' & Hx' & Hy').
    change (run a (ev :: evs)) with (run (handle a ev) evs).
    apply (IH (handle a ev) p' Hrest Hp' Hpin' Hx' Hy').
Qed.

(** On the fixture: JFK is grabbed, then the layout is switched, LAX is
    dragged and frames pass; JFK is still where it was grabbed. *)
Lemma pinned_node_survives_other_events_witness :
  exists p',
    nodes (sim (run (d3 := Fixture.toy_d3)
                  (handle (d3 := Fixture.toy_d3) (App Fixture.s0)
                          (DragStart Fixture.drag_JFK))
                  [Frame; Click; Frame;
                   DragMove {| active := 1; subject := 1;
                               event_x := 5%Q; event_y := 7%Q |};
                   Frame])) !! 0 = Some p'
    /\ x p' = 0%Q /\ y p' = 0%Q.
Proof.
  destruct (pinned_node_survives_other_events (laws := toy_d3_laws)
              [Frame; Click; Frame;
               DragMove {| active := 1; subject := 1;
                           event_x := 5%Q; event_y := 7%Q |};
               Frame]
              (handle (d3 := Fixture.toy_d3) (App Fixture.s0)
                      (DragStart Fixture.drag_JFK))
              0 (set_pin (Some 0%Q) (Some 0%Q) Fixture.JFK_node) 0%Q 0%Q)
    as (p' & Hp' & _ & Hx & Hy).
  - repeat constructor.
  - vm_compute. reflexivity.
  - reflexivity.
  - reflexivity.
  - reflexivity.
  - exists p'. auto.
Defined.

(** Only the start and the moves of a drag ever set a pin: after any
    sequence of clicks, timer frames and drag ends, no node of the store
    is pinned. *)
Theorem no_pin_without_a_drag
  {d3 : D3} {laws : D3Laws d3}
  (_airports : list RawAirport) (_flights : list RawFlight)
  (Number : string -> float) (s0 : Simulation) (evs : list Event) :
  simulation _airports _flights Number = inr s0 ->
  Forall (fun ev => pins_subject ev = false) evs ->
  Forall (fun p => pin p = (None, None)) (nodes (sim (run (App s0) evs))).
Proof.
  intros H Hevs.
  destruct (simulation_built _ _ _ s0 H) as (Hn0 & _).
  assert (Hstart : Forall (fun p => pin p = (None, None))
                          (nodes (sim (App s0)))).
  { cbn [App sim]. rewrite mode_effect_nodes, Hn0.
    apply initializeNodes_unpinned. }
  revert Hstart. generalize (App s0) as a.
  induction Hevs as [|ev evs Hev _ IH]; intros a Ha; [exact Ha|].
  change (run a (ev :: evs)) with (run (handle a ev) evs).
  apply IH, handle_keeps_unpinned; assumption.
Qed.

Lemma no_pin_without_a_drag_witness :
  simulation (d3 := Fixture.toy_d3) Fixture.airports_csv Fixture.flights_csv
             Fixture.Number = inr Fixture.s0
  /\ Forall (fun p => pin p = (None, None))
            (nodes (sim (run (d3 := Fixture.toy_d3) (App Fixture.s0)
                             [Frame; Click; DragEnd Fixture.drag_JFK; Frame]))).
Proof.
  assert (H : simulation (d3 := Fixture.toy_d3) Fixture.airports_csv
                Fixture.flights_csv Fixture.Number = inr Fixture.s0)
    by (vm_compute; reflexivity).
  split; [exact H|].
  apply (no_pin_without_a_drag (laws := toy_d3_laws)
           Fixture.airports_csv Fixture.flights_csv Fixture.Number
           Fixture.s0 _ H).
  repeat constructor.
Defined.

(** ** The colour ramp *)

Lemma ramp_bounds (i n : nat) : i < n -> (0 <= ramp i n < 1)%Q.
Proof.
  intros Hlt. unfold ramp.
  assert (Hn : (0 < inject_Z (Z.of_nat n))%Q).
  { change 0%Q with (inject_Z 0). rewrite <- Zlt_Qlt. lia. }
  split.
  - apply Qle_shift_div_l; [exact Hn|]. rewrite Qmult_0_l.
    change 0%Q with (inject_Z 0). rewrite <- Zle_Qle. lia.
  - apply Qlt_shift_div_r; [exact Hn|]. rewrite Qmult_1_l.
    rewrite <- Zlt_Qlt. lia.
Qed.

Lemma ramp_increasing (i j n : nat) : i < j -> j < n -> (ramp i n < ramp j n)%Q.
Proof.
  intros Hij Hjn. unfold ramp, Qdiv.
  apply Qmult_lt_compat_r.
  - apply Qinv_lt_0_compat. change 0%Q with (inject_Z 0).
    rewrite <- Zlt_Qlt. lia.
  - rewrite <- Zlt_Qlt. lia.
Qed.

(** The range of the state colour scale (line 84) has one colour per
    state; the colour at index [i] is the interpolator at [i / n], a
    position that lies in [0, 1) and grows strictly with the index, so
    no two states share a position and the end of the ramp is never
    used. *)
Theorem state_colours_spread_over_ramp
  {Color : Type} (interpolateBuGn : Q -> Color) (sts : list string) :
  length (scaleState_range interpolateBuGn sts) = length sts
  /\ forall i c,
       scaleState_range interpolateBuGn sts !! i = Some c ->
       c = interpolateBuGn (ramp i (length sts))
       /\ (0 <= ramp i (length sts) < 1)%Q
       /\ forall j, i < j -> j < length sts ->
                    (ramp i (length sts) < ramp j (length sts))%Q.
Proof.
  unfold scaleState_range. split; [apply length_imap|].
  intros i c. rewrite list_lookup_imap.
  destruct (sts !! i) as [st|] eqn:E; simpl; [|discriminate].
  intros H. injection H as <-.
  apply lookup_lt_Some in E.
  split; [reflexivity|]. split; [apply ramp_bounds, E|].
  intros j Hij Hj. apply ramp_increasing; assumption.
Qed.
